(** * Career Mirror ETL scripts: a shallow embedding and its properties

    The repository is five Python scripts under [etl/]:
    - [Utils.py]              the connection provider [get_conn] and the shared [fake] generator,
    - [seed_profiles.py]      [seed_users],
    - [seed_achievements.py]  [seed_achievements],
    - [seed_analytics.py]     [seed_careers],
    - [load_embeddings.py]    the module-level index ensure and [seed_embeddings].

    Every script is a straight line of calls to collaborators outside the
    repository (psycopg2, Faker, random, openai, pinecone).  The embedding
    threads a [World] through the calls: the rows of the relational store,
    the open connection's uncommitted view, the names in the vector store
    and the trace of the calls issued so far.  What the outside answers is
    fixed by an [Env], indexed by the position of the call in the trace, so
    a theorem quantified over every [Env] speaks about every run. *)

From Stdlib Require Import ZArith List String Ascii Bool Arith Lia.
From Stdlib Require Import DecimalString Permutation.
From Stdlib Require QArith_base DecimalPos DecimalZ.
Import ListNotations.
Open Scope string_scope.
Open Scope Z_scope.
Open Scope list_scope.

(** ** Rows of the relational store *)

(** [users(id, name, email)]: [id] is filled in by the store
    ([INSERT ... RETURNING id] in seed_profiles.py). *)
Record User := mkUser {
  u_id : Z;
  u_name : string;
  u_email : string }.

(** [user_profiles]: seed_profiles.py writes the columns
    [(user_id, headline, profile_text)]; load_embeddings.py reads the
    columns [id] and [profile_text].  [p_id] is the row's own [id] column,
    which no script supplies; [p_user_id] is the foreign reference. *)
Record UserProfile := mkUserProfile {
  p_id : Z;
  p_user_id : Z;
  p_headline : string;
  p_profile_text : string }.

(** [achievements(title, description, points)] *)
Record Achievement := mkAchievement {
  a_title : string;
  a_description : string;
  a_points : Z }.

(** [career_paths(title, description, avg_salary, lifestyle)] *)
Record CareerPath := mkCareerPath {
  c_title : string;
  c_description : string;
  c_avg_salary : Z;
  c_lifestyle : string }.

Record Database := mkDatabase {
  db_users : list User;
  db_user_profiles : list UserProfile;
  db_achievements : list Achievement;
  db_career_paths : list CareerPath }.

Definition empty_database : Database := mkDatabase [] [] [] [].

(** ** The statements the scripts send *)

Inductive Query :=
  (** [INSERT INTO users (name, email) VALUES (%s,%s) RETURNING id] *)
| INSERT_users (name email : string)
  (** [INSERT INTO user_profiles (user_id, headline, profile_text) VALUES (%s,%s,%s)] *)
| INSERT_user_profiles (user_id : Z) (headline profile_text : string)
  (** [INSERT INTO achievements (title,description,points) VALUES (%s,%s,%s) ON CONFLICT DO NOTHING] *)
| INSERT_achievements (title description : string) (points : Z)
  (** [INSERT INTO career_paths (title, description, avg_salary, lifestyle)
       VALUES (%s,%s,%s,%s) ON CONFLICT DO NOTHING] *)
| INSERT_career_paths (title description : string) (avg_salary : Z) (lifestyle : string)
  (** [SELECT id, profile_text FROM user_profiles] *)
| SELECT_id_profile_text.

(** What a cursor holds after [execute]. *)
Inductive ResultSet :=
| NoRows
| IdRows (rows : list Z)
| ProfileRows (rows : list (Z * string)).

(** The embedding vector: the numbers of the service's JSON answer. *)
Definition Embedding : Type := list QArith_base.Q.

(** [openai.Embedding.create(...)] answers a dictionary; the script reads
    [["data"][0]["embedding"]]. *)
Record EmbeddingDatum := mkDatum { embedding : Embedding }.
Record EmbeddingResponse := mkResponse { data : list EmbeddingDatum }.

(** ** Calls to the collaborators *)

Inductive Event :=
| psycopg2_connect
| conn_cursor
| cur_execute (q : Query)
| cur_fetchone
| cur_fetchall
| conn_commit
| cur_close
| conn_close
| fake_name
| fake_email
| fake_job
| fake_text (max_nb_chars : nat)
| random_randint (a b : Z)
| pinecone_init
| pinecone_list_indexes
| pinecone_create_index (name : string) (dimension : Z)
| index_upsert (name : string) (vectors : list (string * Embedding))
| openai_Embedding_create (input model : string)
| print (s : string).

Inductive Exception :=
  (** the collaborator raised from this call *)
| CallFailed (call : Event)
  (** [[0]] on an empty list *)
| IndexError
  (** [[0]] on [None] *)
| TypeError
  (** cursor used without a connection or without the expected result *)
| ProgrammingError.

(** ** The outside world *)

(** The answers of the collaborators, by the ordinal of the call (its
    position in the trace). *)
Record Env := mkEnv {
  (** does the call with this ordinal raise? *)
  fails : nat -> bool;
  (** the [id] the store fills in for the row inserted by this call *)
  assigned_id : nat -> Z;
  faker_name : nat -> string;
  faker_email : nat -> string;
  faker_job : nat -> string;
  faker_text : nat -> nat -> string;
  (** raw randomness behind [random.randint] *)
  entropy : nat -> Z;
  embedding_service : nat -> string -> string -> EmbeddingResponse }.

Record World := mkWorld {
  (** the committed rows *)
  committed : Database;
  (** the open connection's view: committed rows plus its own uncommitted writes *)
  session : option Database;
  cursor : ResultSet;
  (** names listed by the vector store *)
  vector_indexes : list string;
  (** calls issued so far, oldest first *)
  trace : list Event }.

Definition set_session (s : option Database) (w : World) : World :=
  mkWorld (committed w) s (cursor w) (vector_indexes w) (trace w).
Definition set_cursor (c : ResultSet) (w : World) : World :=
  mkWorld (committed w) (session w) c (vector_indexes w) (trace w).
Definition set_committed (d : Database) (w : World) : World :=
  mkWorld d (session w) (cursor w) (vector_indexes w) (trace w).
Definition set_vector_indexes (l : list string) (w : World) : World :=
  mkWorld (committed w) (session w) (cursor w) l (trace w).
Definition log (e : Event) (w : World) : World :=
  mkWorld (committed w) (session w) (cursor w) (vector_indexes w) (trace w ++ [e]).

(** The ordinal the next call gets. *)
Definition ordinal (w : World) : nat := List.length (trace w).

(** ** State and exceptions *)

Inductive Result (A : Type) :=
| Ok (a : A)
| Raise (e : Exception).
Arguments Ok {A} a.
Arguments Raise {A} e.

Definition M (A : Type) : Type := World -> Result A * World.

Definition ret {A} (a : A) : M A := fun w => (Ok a, w).

Definition raise {A} (e : Exception) : M A := fun w => (Raise e, w).

Definition bind {A B} (m : M A) (k : A -> M B) : M B :=
  fun w => match m w with
           | (Ok a, w') => k a w'
           | (Raise e, w') => (Raise e, w')
           end.

Declare Scope m_scope.
Delimit Scope m_scope with M.
Notation "x <- c ;; k" := (bind c (fun x => k))
  (at level 61, c at next level, right associativity) : m_scope.
Notation "c ;; k" := (bind c (fun _ => k))
  (at level 61, right associativity) : m_scope.
Open Scope m_scope.

(** [for x in l: body x] *)
Fixpoint for_each {A} (l : list A) (body : A -> M unit) : M unit :=
  match l with
  | [] => ret tt
  | x :: rest => body x ;; for_each rest body
  end.

(** [range(n)] *)
Definition range (n : nat) : list nat := seq 0 n.

(** ** Python and library primitives *)

(** [str(n)] on an integer. *)
Definition str (z : Z) : string := NilZero.string_of_int (Z.to_int z).

Definition quote : string := String (ascii_of_nat 34) EmptyString.

(** [json.dumps] of a flat dictionary of plain strings, with the default
    separators. *)
Fixpoint json_members (d : list (string * string)) : string :=
  match d with
  | [] => ""
  | [(k, v)] => (quote ++ k ++ quote ++ ": " ++ quote ++ v ++ quote)%string
  | (k, v) :: rest =>
      (quote ++ k ++ quote ++ ": " ++ quote ++ v ++ quote ++ ", " ++ json_members rest)%string
  end.
Definition json_dumps (d : list (string * string)) : string :=
  ("{" ++ json_members d ++ "}")%string.

Section Scripts.

Variable env : Env.

(** Issue a call: it enters the trace, and raises if the outside says so.
    The answer is the call's ordinal. *)
Definition call (e : Event) : M nat :=
  fun w =>
    let n := ordinal w in
    if fails env n then (Raise (CallFailed e), log e w) else (Ok n, log e w).

(** [print] writes to standard output and does not fail. *)
Definition py_print (s : string) : M unit :=
  fun w => (Ok tt, log (print s) w).

(** *** psycopg2 *)

(** Utils.py: [get_conn] is [psycopg2.connect(DB_URL)].  The connection
    starts from the committed rows. *)
Definition get_conn : M unit :=
  _ <- call psycopg2_connect ;;
  fun w => (Ok tt, set_session (Some (committed w)) w).

Definition cursor_ : M unit :=
  _ <- call conn_cursor ;;
  fun w => (Ok tt, set_cursor NoRows w).

(** Modelled from the spec: the schema is not part of the scripts; the
    spec's table list gives [career_paths(title UNIQUE, ...)] and
    [achievements(title UNIQUE, ...)], so [ON CONFLICT DO NOTHING] skips
    the row exactly when a row with that title is already there. *)
Definition has_achievement (t : string) (rows : list Achievement) : bool :=
  existsb (fun r => String.eqb (a_title r) t) rows.
Definition has_career_path (t : string) (rows : list CareerPath) : bool :=
  existsb (fun r => String.eqb (c_title r) t) rows.

(** The effect of one statement on the connection's view, and the result
    it leaves in the cursor; [new_id] is the id the store assigns. *)
Definition run_query (new_id : Z) (q : Query) (d : Database) : Database * ResultSet :=
  match q with
  | INSERT_users name email =>
      (mkDatabase (db_users d ++ [mkUser new_id name email]) (db_user_profiles d)
                  (db_achievements d) (db_career_paths d),
       IdRows [new_id])
  | INSERT_user_profiles user_id headline profile_text =>
      (mkDatabase (db_users d)
                  (db_user_profiles d ++ [mkUserProfile new_id user_id headline profile_text])
                  (db_achievements d) (db_career_paths d),
       NoRows)
  | INSERT_achievements t ds p =>
      (if has_achievement t (db_achievements d) then d
       else mkDatabase (db_users d) (db_user_profiles d)
                       (db_achievements d ++ [mkAchievement t ds p]) (db_career_paths d),
       NoRows)
  | INSERT_career_paths t ds s l =>
      (if has_career_path t (db_career_paths d) then d
       else mkDatabase (db_users d) (db_user_profiles d) (db_achievements d)
                       (db_career_paths d ++ [mkCareerPath t ds s l]),
       NoRows)
  | SELECT_id_profile_text =>
      (d, ProfileRows (map (fun p => (p_id p, p_profile_text p)) (db_user_profiles d)))
  end.

Definition execute (q : Query) : M unit :=
  n <- call (cur_execute q) ;;
  fun w =>
    match session w with
    | None => (Raise ProgrammingError, w)
    | Some d =>
        let (d', rs) := run_query (assigned_id env n) q d in
        (Ok tt, set_cursor rs (set_session (Some d') w))
    end.

(** [cur.fetchone()]: the next row of an [INSERT ... RETURNING id], or [None]. *)
Definition fetchone : M (option Z) :=
  _ <- call cur_fetchone ;;
  fun w =>
    match cursor w with
    | IdRows (r :: rest) => (Ok (Some r), set_cursor (IdRows rest) w)
    | IdRows [] => (Ok None, w)
    | _ => (Raise ProgrammingError, w)
    end.

(** [cur.fetchall()] after the profile query. *)
Definition fetchall : M (list (Z * string)) :=
  _ <- call cur_fetchall ;;
  fun w =>
    match cursor w with
    | ProfileRows rows => (Ok rows, set_cursor (ProfileRows []) w)
    | _ => (Raise ProgrammingError, w)
    end.

(** [conn.commit()]: the connection's view becomes the committed rows. *)
Definition commit : M unit :=
  _ <- call conn_commit ;;
  fun w =>
    match session w with
    | None => (Raise ProgrammingError, w)
    | Some d => (Ok tt, set_committed d w)
    end.

Definition close_cursor : M unit :=
  _ <- call cur_close ;; ret tt.

(** [conn.close()]: what was not committed is gone. *)
Definition close_conn : M unit :=
  _ <- call conn_close ;;
  fun w => (Ok tt, set_session None w).

(** [row[0]] on the answer of [fetchone]. *)
Definition subscript0 (row : option Z) : M Z :=
  match row with
  | Some v => ret v
  | None => raise TypeError
  end.

(** *** Faker and random *)

Definition fake_name_ : M string :=
  fun w => (Ok (faker_name env (ordinal w)), log fake_name w).
Definition fake_email_ : M string :=
  fun w => (Ok (faker_email env (ordinal w)), log fake_email w).
Definition fake_job_ : M string :=
  fun w => (Ok (faker_job env (ordinal w)), log fake_job w).
Definition fake_text_ (max_nb_chars : nat) : M string :=
  fun w => (Ok (faker_text env (ordinal w) max_nb_chars),
            log (fake_text max_nb_chars) w).

(** [random.randint(a, b)]: an integer N with a <= N <= b. *)
Definition randint (a b : Z) : M Z :=
  fun w => (Ok (a + entropy env (ordinal w) mod (b - a + 1)),
            log (random_randint a b) w).

(** *** openai and pinecone *)

(** [openai.Embedding.create(input=text, model=m)["data"][0]["embedding"]] *)
Definition Embedding_create (input model : string) : M Embedding :=
  n <- call (openai_Embedding_create input model) ;;
  match data (embedding_service env n input model) with
  | d :: _ => ret (embedding d)
  | [] => raise IndexError
  end.

Definition list_indexes : M (list string) :=
  _ <- call pinecone_list_indexes ;;
  fun w => (Ok (vector_indexes w), w).

Definition create_index (name : string) (dimension : Z) : M unit :=
  _ <- call (pinecone_create_index name dimension) ;;
  fun w => (Ok tt, set_vector_indexes (vector_indexes w ++ [name]) w).

(** [index.upsert(vectors)] on the handle [pinecone.Index(name)]. *)
Definition upsert (name : string) (vectors : list (string * Embedding)) : M unit :=
  _ <- call (index_upsert name vectors) ;; ret tt.

(** ** seed_profiles.py *)

Definition seed_users : M unit :=
  get_conn ;;
  cursor_ ;;
  for_each (range 20) (fun _ =>
    name <- fake_name_ ;;
    email <- fake_email_ ;;
    headline <- fake_job_ ;;
    profile_text <- fake_text_ 500 ;;
    execute (INSERT_users name email) ;;
    row <- fetchone ;;
    user_id <- subscript0 row ;;
    execute (INSERT_user_profiles user_id headline profile_text)) ;;
  commit ;; close_cursor ;; close_conn ;;
  py_print "✅ Users seeded".

(** ** seed_achievements.py *)

Definition achievements : list (string * string * Z) :=
  [("First Steps", "Completed first analysis", 50);
   ("Learner", "Took a course", 100)].

Definition seed_achievements : M unit :=
  get_conn ;;
  cursor_ ;;
  for_each achievements (fun '(t, d, p) =>
    execute (INSERT_achievements t d p)) ;;
  commit ;; close_cursor ;; close_conn ;;
  py_print "✅ Achievements seeded".

(** ** seed_analytics.py *)

Definition careers : list string :=
  ["Data Scientist"; "Frontend Developer"; "Backend Engineer";
   "UX Designer"; "AI Researcher"].

Definition lifestyle : string :=
  json_dumps [("stress", "medium"); ("travel", "occasional")].

Definition seed_careers : M unit :=
  get_conn ;;
  cursor_ ;;
  for_each careers (fun c =>
    salary <- randint 60000 180000 ;;
    execute (INSERT_career_paths c ("A career as " ++ c)%string salary lifestyle)) ;;
  commit ;; close_cursor ;; close_conn ;;
  py_print "✅ Careers seeded".

(** ** load_embeddings.py *)

Definition index_name : string := "career-mirror".

(** The module-level statements: [pinecone.init], then the index ensure.
    [index = pinecone.Index(index_name)] builds the handle the upserts go
    through; the handle is the index's name. *)
Definition ensure_index : M unit :=
  _ <- call pinecone_init ;;
  names <- list_indexes ;;
  (if negb (existsb (String.eqb index_name) names)
   then create_index index_name 1536
   else ret tt).

Definition index : string := index_name.

Definition seed_embeddings : M unit :=
  get_conn ;;
  cursor_ ;;
  execute SELECT_id_profile_text ;;
  profiles <- fetchall ;;
  for_each profiles (fun '(uid, text) =>
    emb <- Embedding_create text "text-embedding-ada-002" ;;
    upsert index [(str uid, emb)]) ;;
  py_print "✅ Embeddings synced" ;;
  close_cursor ;; close_conn.

(** Running the file as a script: the module level, then
    [if __name__ == "__main__": seed_embeddings()]. *)
Definition load_embeddings_main : M unit :=
  ensure_index ;; seed_embeddings.

End Scripts.

(** ** Observing a run *)

(** The calls issued between two worlds of one run. *)
Definition issued (w w' : World) : list Event :=
  skipn (ordinal w) (trace w').

Definition is_create_index (e : Event) : bool :=
  match e with pinecone_create_index _ _ => true | _ => false end.
Definition is_embedding_call (e : Event) : bool :=
  match e with openai_Embedding_create _ _ => true | _ => false end.
Definition is_upsert (e : Event) : bool :=
  match e with index_upsert _ _ => true | _ => false end.
Definition is_commit (e : Event) : bool :=
  match e with conn_commit => true | _ => false end.

(** Calls that go to a collaborator that can raise; the generators and
    [print] answer locally. *)
Definition fallible (e : Event) : bool :=
  match e with
  | fake_name | fake_email | fake_job | fake_text _ | random_randint _ _ | print _ => false
  | _ => true
  end.

(** The statements sent through [cur.execute], in order. *)
Definition executed (l : list Event) : list Query :=
  flat_map (fun e => match e with cur_execute q => [q] | _ => [] end) l.

(** The keys of the vectors sent through [index.upsert], in order. *)
Definition upserted_keys (l : list Event) : list string :=
  flat_map (fun e => match e with index_upsert _ vs => map fst vs | _ => [] end) l.

(** The texts sent to the embedding service, in order. *)
Definition embedded_texts (l : list Event) : list string :=
  flat_map (fun e => match e with openai_Embedding_create t _ => [t] | _ => [] end) l.

(** The lines written to standard output, in order. *)
Definition printed (l : list Event) : list string :=
  flat_map (fun e => match e with print s => [s] | _ => [] end) l.

(** *** Properties of computations that compose along [bind] *)

(** Every call the computation issues satisfies [Q]. *)
Definition emits {A} (Q : Event -> Prop) (m : M A) : Prop :=
  forall w r w', m w = (r, w') ->
  exists l, trace w' = trace w ++ l /\ Forall Q l.

(** A call that the collaborator fails is the last call of the
    computation, and its exception is the computation's result: nothing
    catches it, nothing runs after it. *)
Definition propagates (env : Env) {A} (m : M A) : Prop :=
  forall w r w', m w = (r, w') ->
  exists l, trace w' = trace w ++ l /\
    forall i e, nth_error l i = Some e -> fallible e = true ->
      fails env (ordinal w + i) = true ->
      S i = List.length l /\ r = Raise (CallFailed e).

(** When the result is a collaborator's exception, some call did fail:
    the scripts raise none of their own. *)
Definition blames_a_call (env : Env) {A} (m : M A) : Prop :=
  forall w e w', m w = (Raise (CallFailed e), w') -> exists n, fails env n = true.

(** The computation leaves the committed rows alone. *)
Definition keeps_committed {A} (m : M A) : Prop :=
  forall w r w', m w = (r, w') -> committed w' = committed w.

(** The computation leaves the connection open. *)
Definition keeps_session {A} (m : M A) : Prop :=
  forall w r w', m w = (r, w') -> session w <> None -> session w' <> None.

(** The computation leaves the vector store's index list alone. *)
Definition keeps_indexes {A} (m : M A) : Prop :=
  forall w r w', m w = (r, w') -> vector_indexes w' = vector_indexes w.

(** *** The shape of a run of [seed_embeddings] *)

(** The body of the loop of [seed_embeddings]. *)
Definition sync_body (env : Env) : Z * string -> M unit :=
  fun '(uid, text) =>
    emb <- Embedding_create env text "text-embedding-ada-002" ;;
    upsert env index [(str uid, emb)].

(** What [fetchall] hands to the loop. *)
Definition profile_rows (d : Database) : list (Z * string) :=
  map (fun p => (p_id p, p_profile_text p)) (db_user_profiles d).

(** The calls of [seed_embeddings] before its loop. *)
Definition query_calls : list Event :=
  [psycopg2_connect; conn_cursor; cur_execute SELECT_id_profile_text; cur_fetchall].

(** The two calls of one completed iteration. *)
Definition sync_calls (row : Z * string) (emb : Embedding) : list Event :=
  [openai_Embedding_create (snd row) "text-embedding-ada-002";
   index_upsert index [(str (fst row), emb)]].

(** The calls of the completed iterations, given each row's vector. *)
Definition synced (done : list ((Z * string) * Embedding)) : list Event :=
  flat_map (fun re => sync_calls (fst re) (snd re)) done.

(** How the loop ends after [k] completed rows: result and last calls. *)
Inductive LoopEnd (rows : list (Z * string)) : nat -> Result unit -> list Event -> Prop :=
| AllDone : LoopEnd rows (List.length rows) (Ok tt) []
| EmbedFailed k row :
    nth_error rows k = Some row ->
    LoopEnd rows k
      (Raise (CallFailed (openai_Embedding_create (snd row) "text-embedding-ada-002")))
      [openai_Embedding_create (snd row) "text-embedding-ada-002"]
| NoDatum k row :
    nth_error rows k = Some row ->
    LoopEnd rows k (Raise IndexError)
      [openai_Embedding_create (snd row) "text-embedding-ada-002"]
| UpsertFailed k row emb :
    nth_error rows k = Some row ->
    LoopEnd rows k (Raise (CallFailed (index_upsert index [(str (fst row), emb)])))
      (sync_calls row emb).

(** [cur.close(); conn.close()] *)
Inductive Closing : Result unit -> list Event -> Prop :=
| ClosedBoth : Closing (Ok tt) [cur_close; conn_close]
| CursorCloseFailed : Closing (Raise (CallFailed cur_close)) [cur_close]
| ConnCloseFailed : Closing (Raise (CallFailed conn_close)) [cur_close; conn_close].

(** Every run of [seed_embeddings] over the rows [rows]: it stops at one
    of the four connection and query calls, or inside the loop, or it
    completes the loop, prints and closes. *)
Inductive SyncRun (rows : list (Z * string)) : Result unit -> list Event -> Prop :=
| FailedBeforeLoop pre e post :
    query_calls = pre ++ e :: post ->
    SyncRun rows (Raise (CallFailed e)) (pre ++ [e])
| FailedInLoop embs tail e :
    LoopEnd rows (List.length embs) (Raise e) tail ->
    SyncRun rows (Raise e)
      (query_calls ++ synced (combine (firstn (List.length embs) rows) embs) ++ tail)
| LoopDone embs r post :
    List.length embs = List.length rows ->
    Closing r post ->
    SyncRun rows r
      (query_calls ++ synced (combine rows embs) ++ print "✅ Embeddings synced" :: post).

(** Nothing but the trace and the cursor changed. *)
Definition same_store (w w' : World) : Prop :=
  committed w' = committed w /\ session w' = session w /\
  vector_indexes w' = vector_indexes w.

(** *** The shape of a run of a seeder *)

(** The three seeders are one sequence around their loop. *)
Definition batch (env : Env) (loop : M unit) (msg : string) : M unit :=
  get_conn env ;;
  cursor_ env ;;
  loop ;;
  commit env ;; close_cursor env ;; close_conn env ;;
  py_print msg.

(** Every run of a seeder: it completes; or it stops before [commit] is
    called; or [commit] itself raises; or a close raises after the commit. *)
Inductive BatchRun (msg : string) (w w' : World) : Result unit -> Prop :=
| BatchDone body :
    issued w w' =
      psycopg2_connect :: conn_cursor :: body ++
      [conn_commit; cur_close; conn_close; print msg] ->
    filter is_commit body = [] ->
    BatchRun msg w w' (Ok tt)
| BatchAborted e :
    committed w' = committed w ->
    filter is_commit (issued w w') = [] ->
    BatchRun msg w w' (Raise e)
| BatchCommitFailed :
    committed w' = committed w ->
    List.length (filter is_commit (issued w w')) = 1%nat ->
    BatchRun msg w w' (Raise (CallFailed conn_commit))
| BatchCloseFailed e post :
    Closing (Raise e) post ->
    List.length (filter is_commit (issued w w')) = 1%nat ->
    BatchRun msg w w' (Raise e).

(** The titles of a table after a conflict-tolerant insert of [t]. *)
Definition add_title (ts : list string) (t : string) : list string :=
  if existsb (String.eqb t) ts then ts else ts ++ [t].

(** ... and after a run of them, in order. *)
Definition add_titles (ts : list string) (l : list string) : list string :=
  fold_left add_title l ts.

Definition achievement_titles (d : Database) : list string :=
  map a_title (db_achievements d).
Definition career_titles (d : Database) : list string :=
  map c_title (db_career_paths d).

(** The world once [get_conn()] and [conn.cursor()] have answered. *)
Definition connected (w : World) : World :=
  set_cursor NoRows
    (log conn_cursor (set_session (Some (committed w)) (log psycopg2_connect w))).

(** The bodies of the seeders' loops. *)
Definition users_body (env : Env) : nat -> M unit :=
  fun _ =>
    name <- fake_name_ env ;;
    email <- fake_email_ env ;;
    headline <- fake_job_ env ;;
    profile_text <- fake_text_ env 500 ;;
    execute env (INSERT_users name email) ;;
    row <- fetchone env ;;
    user_id <- subscript0 row ;;
    execute env (INSERT_user_profiles user_id headline profile_text).

Definition achievements_body (env : Env) : string * string * Z -> M unit :=
  fun '(t, d, p) => execute env (INSERT_achievements t d p).

Definition careers_body (env : Env) : string -> M unit :=
  fun c =>
    salary <- randint env 60000 180000 ;;
    execute env (INSERT_career_paths c ("A career as " ++ c)%string salary lifestyle).

(** The calls of one completed iteration of [seed_users], given the two
    rows it inserted. *)
Definition user_calls (up : User * UserProfile) : list Event :=
  [fake_name; fake_email; fake_job; fake_text 500;
   cur_execute (INSERT_users (u_name (fst up)) (u_email (fst up)));
   cur_fetchone;
   cur_execute (INSERT_user_profiles (u_id (fst up)) (p_headline (snd up))
                  (p_profile_text (snd up)))].

(** The two statements of one iteration of [seed_users]. *)
Definition user_inserts (up : User * UserProfile) : list Query :=
  [INSERT_users (u_name (fst up)) (u_email (fst up));
   INSERT_user_profiles (u_id (fst up)) (p_headline (snd up)) (p_profile_text (snd up))].

(** The calls of one completed iteration of [seed_careers], given the
    salary drawn. *)
Definition career_calls (cs : string * Z) : list Event :=
  [random_randint 60000 180000;
   cur_execute (INSERT_career_paths (fst cs) ("A career as " ++ fst cs)%string
                  (snd cs) lifestyle)].

(** What it means for a seeder to commit once, after its inserts:
    a successful run has one [commit], with every [execute] before it;
    a failed insert ends the run with its exception, the committed rows
    as they were and no [commit] called; no run calls [commit] twice. *)
Definition commits_once_at_end (script : Env -> M unit) : Prop :=
  forall env w r w',
    script env w = (r, w') ->
    (r = Ok tt ->
     exists before after,
       issued w w' = before ++ conn_commit :: after /\
       filter is_commit before = [] /\ filter is_commit after = [] /\
       executed after = []) /\
    (forall i q,
       nth_error (issued w w') i = Some (cur_execute q) ->
       fails env (ordinal w + i) = true ->
       r = Raise (CallFailed (cur_execute q)) /\
       committed w' = committed w /\
       filter is_commit (issued w w') = []) /\
    (List.length (filter is_commit (issued w w')) <= 1)%nat.

(** The titles in the hardcoded list of [seed_achievements]. *)
Definition achievement_seed_titles : list string :=
  map (fun x => fst (fst x)) achievements.

(** The statement [seed_careers] sends for a title and the salary drawn. *)
Definition career_insert (c : string) (salary : Z) : Query :=
  INSERT_career_paths c ("A career as " ++ c)%string salary lifestyle.

(** Every profile text [seed_users] sends was generated under the cap of
    500, and the generator is asked for no other cap. *)
Definition capped_text (env : Env) (e : Event) : Prop :=
  match e with
  | cur_execute (INSERT_user_profiles _ _ t) => exists n, t = faker_text env n 500
  | fake_text m => m = 500%nat
  | _ => True
  end.

(** ** Sample environments and worlds *)

Definition lorem : string :=
  "Lorem ipsum dolor sit amet, consectetur adipiscing elit.".

(** Collaborators that never fail; ids count with the calls. *)
Definition calm : Env :=
  mkEnv (fun _ => false)
        (fun n => Z.of_nat n)
        (fun _ => "Ann Lee")
        (fun _ => "ann@example.org")
        (fun _ => "Engineer")
        (fun _ m => substring 0 m lorem)
        (fun n => Z.of_nat n * 7919)
        (fun _ _ _ => mkResponse [mkDatum [QArith_base.Qmake 1 2]]).

(** As [calm], but the call with ordinal [k] raises. *)
Definition failing_at (k : nat) : Env :=
  mkEnv (fun n => Nat.eqb n k)
        (assigned_id calm) (faker_name calm) (faker_email calm) (faker_job calm)
        (faker_text calm) (entropy calm) (embedding_service calm).

Definition fresh_world : World := mkWorld empty_database None NoRows [] [].

(** Three stored profiles, index already there. *)
Definition three_profiles : World :=
  mkWorld
    (mkDatabase
       [mkUser 1 "Ann" "ann@example.org"; mkUser 2 "Bob" "bob@example.org";
        mkUser 3 "Cy" "cy@example.org"]
       [mkUserProfile 1 1 "Engineer" "Builds things.";
        mkUserProfile 2 2 "Designer" "Draws things.";
        mkUserProfile 3 3 "Analyst" "Counts things."]
       [] [])
    None NoRows ["career-mirror"] [].

(** Two users, the second one with a profile: the profile is row 1 of
    [user_profiles] and belongs to user 2. *)
Definition second_user_profile : World :=
  mkWorld
    (mkDatabase
       [mkUser 1 "Ann" "ann@example.org"; mkUser 2 "Bob" "bob@example.org"]
       [mkUserProfile 1 2 "Designer" "Draws things."]
       [] [])
    None NoRows ["career-mirror"] [].

(** ** Further observations *)

Definition is_close (e : Event) : bool :=
  match e with cur_close | conn_close => true | _ => false end.

(** The calls a seeder's loop makes: the generators, [execute], [fetchone]. *)
Definition loop_call (e : Event) : bool :=
  match e with
  | fake_name | fake_email | fake_job | fake_text _ | random_randint _ _
  | cur_execute _ | cur_fetchone => true
  | _ => false
  end.

(** The calls [seed_embeddings] makes; the only statement is the query. *)
Definition sync_call (e : Event) : bool :=
  match e with
  | psycopg2_connect | conn_cursor | cur_execute SELECT_id_profile_text | cur_fetchall
  | openai_Embedding_create _ _ | index_upsert _ _ | print _ | cur_close | conn_close => true
  | _ => false
  end.

(** The calls of the index ensure. *)
Definition pinecone_call (e : Event) : bool :=
  match e with
  | pinecone_init | pinecone_list_indexes | pinecone_create_index _ _ => true
  | _ => false
  end.

(** The trace only grows, and a collaborator's exception as result is
    that of the last call issued. *)
Definition accounts {A} (m : M A) : Prop :=
  forall w r w', m w = (r, w') ->
  exists l, trace w' = trace w ++ l /\
    forall e, r = Raise (CallFailed e) -> exists l0, l = l0 ++ [e].

(** What follows a seeder's loop: [commit], the closes, the message. *)
Inductive BatchEnd (msg : string) : Result unit -> list Event -> Prop :=
| EndOk : BatchEnd msg (Ok tt) [conn_commit; cur_close; conn_close; print msg]
| EndCommitFailed : BatchEnd msg (Raise (CallFailed conn_commit)) [conn_commit]
| EndCursorCloseFailed :
    BatchEnd msg (Raise (CallFailed cur_close)) [conn_commit; cur_close]
| EndConnCloseFailed :
    BatchEnd msg (Raise (CallFailed conn_close)) [conn_commit; cur_close; conn_close].

(** The calls of a seeder's run, whatever its result; [body] is what its
    loop issued. *)
Inductive BatchTrace (msg : string) : Result unit -> list Event -> Prop :=
| ConnectFailed :
    BatchTrace msg (Raise (CallFailed psycopg2_connect)) [psycopg2_connect]
| CursorFailed :
    BatchTrace msg (Raise (CallFailed conn_cursor)) [psycopg2_connect; conn_cursor]
| LoopRaised e body :
    Forall (fun c => loop_call c = true) body ->
    (forall c, e = CallFailed c -> exists l0, body = l0 ++ [c]) ->
    BatchTrace msg (Raise e) (psycopg2_connect :: conn_cursor :: body)
| LoopCompleted r body post :
    Forall (fun c => loop_call c = true) body ->
    BatchEnd msg r post ->
    BatchTrace msg r (psycopg2_connect :: conn_cursor :: body ++ post).

(** The row [seed_achievements] inserts for a tuple of its list. *)
Definition achievement_row (x : string * string * Z) : Achievement :=
  mkAchievement (fst (fst x)) (snd (fst x)) (snd x).

(** What every row inserted by [seed_careers] looks like. *)
Definition seeded_career (c : CareerPath) : Prop :=
  In (c_title c) careers /\
  c_description c = ("A career as " ++ c_title c)%string /\
  60000 <= c_avg_salary c <= 180000 /\
  c_lifestyle c = lifestyle.

(** The upsert [seed_embeddings] sends for a row: to the index
    ["career-mirror"], one vector, the first of some answer of the service
    to the row's text under the model ["text-embedding-ada-002"], keyed by
    [str] of the row's [id]. *)
Definition upsert_of_row (env : Env) (row : Z * string) (e : Event) : Prop :=
  exists n d ds,
    data (embedding_service env n (snd row) "text-embedding-ada-002") = d :: ds /\
    e = index_upsert "career-mirror" [(str (fst row), embedding d)].

(** The script closes nothing on an error path: when the run ends with an
    exception other than that of [cur.close()] or [conn.close()], neither
    was called. *)
Definition closes_only_at_end (script : Env -> M unit) : Prop :=
  forall env w e w',
    script env w = (Raise e, w') ->
    e <> CallFailed cur_close -> e <> CallFailed conn_close ->
    filter is_close (issued w w') = [].

(** The seeder prints its message, once, exactly when the run succeeds. *)
Definition reports_only_success (script : Env -> M unit) (msg : string) : Prop :=
  forall env w r w',
    script env w = (r, w') ->
    (r = Ok tt -> printed (issued w w') = [msg]) /\
    (r <> Ok tt -> printed (issued w w') = []).


(** A career path stored before any seeding, under a seeded title. *)
Definition one_career_stored : World :=
  mkWorld
    (mkDatabase [] [] []
       [mkCareerPath "UX Designer" "Designs interfaces" 95000 "{}"])
    None NoRows [] [].

(** A failure anywhere before the closes leaves the store as it was. *)
Definition fails_clean (script : Env -> M unit) : Prop :=
  forall env w e w',
    script env w = (Raise e, w') ->
    e <> CallFailed cur_close -> e <> CallFailed conn_close ->
    committed w' = committed w.

(** ** Basic facts about the monad and the primitives *)

Lemma issued_app (w w' : World) (l : list Event) :
  trace w' = trace w ++ l -> issued w w' = l.
Proof.
  intros H. unfold issued, ordinal. rewrite H.
  rewrite skipn_app, skipn_all, Nat.sub_diag. reflexivity.
Qed.

Lemma ordinal_app (w w' : World) (l : list Event) :
  trace w' = trace w ++ l -> ordinal w' = (ordinal w + List.length l)%nat.
Proof. intros H. unfold ordinal. rewrite H. apply length_app. Qed.

Lemma bind_inv {A B} (m : M A) (k : A -> M B) w r w' :
  bind m k w = (r, w') ->
  (exists a w1, m w = (Ok a, w1) /\ k a w1 = (r, w')) \/
  (exists e, m w = (Raise e, w') /\ r = Raise e).
Proof.
  unfold bind. destruct (m w) as [[a|e] w1]; intros H.
  - left. eauto.
  - right. inversion H; subst. eauto.
Qed.

Lemma trace_log2 (a b : Event) (w : World) :
  trace (log b (log a w)) = trace w ++ [a; b].
Proof. simpl. rewrite <- app_assoc. reflexivity. Qed.

Lemma same_store_refl w : same_store w w.
Proof. repeat split. Qed.

Lemma same_store_trans w1 w2 w3 :
  same_store w1 w2 -> same_store w2 w3 -> same_store w1 w3.
Proof. unfold same_store. intuition congruence. Qed.

Lemma same_store_log e w : same_store w (log e w).
Proof. repeat split. Qed.

Lemma LoopEnd_Ok_inv rows k tail :
  LoopEnd rows k (Ok tt) tail -> k = List.length rows /\ tail = [].
Proof. intros H. inversion H. split; reflexivity. Qed.

(** *** Composition rules *)

Lemma emits_ret {A} Q (a : A) : emits Q (ret a).
Proof.
  intros w r w' H. inversion H; subst. exists []. rewrite app_nil_r. auto.
Qed.

Lemma emits_raise {A} Q e : emits Q (@raise A e).
Proof.
  intros w r w' H. inversion H; subst. exists []. rewrite app_nil_r. auto.
Qed.

Lemma emits_bind {A B} Q (m : M A) (k : A -> M B) :
  emits Q m -> (forall a, emits Q (k a)) -> emits Q (bind m k).
Proof.
  intros Hm Hk w r w' H. apply bind_inv in H.
  destruct H as [(a & w1 & H1 & H2) | (e & H1 & ->)].
  - destruct (Hm _ _ _ H1) as (l1 & T1 & F1).
    destruct (Hk a _ _ _ H2) as (l2 & T2 & F2).
    exists (l1 ++ l2). rewrite T2, T1, app_assoc. split; [reflexivity|].
    apply Forall_app. auto.
  - exact (Hm _ _ _ H1).
Qed.

Lemma emits_for_each {A} Q (l : list A) (body : A -> M unit) :
  (forall x, emits Q (body x)) -> emits Q (for_each l body).
Proof.
  intros Hb. induction l as [|x l IH]; cbn [for_each].
  - apply emits_ret.
  - apply emits_bind; auto.
Qed.

(** A step that touches the trace by at most one call. *)
Lemma emits_step {A} (Q : Event -> Prop) (m : M A) :
  (forall w, trace (snd (m w)) = trace w \/
             exists e, Q e /\ trace (snd (m w)) = trace w ++ [e]) ->
  emits Q m.
Proof.
  intros Hm w r w' H. specialize (Hm w). rewrite H in Hm. cbn [snd] in Hm.
  destruct Hm as [T | (e & He & T)].
  - exists []. rewrite app_nil_r. auto.
  - exists [e]. auto.
Qed.

Lemma keeps_committed_ret {A} (a : A) : keeps_committed (ret a).
Proof. intros w r w' H. inversion H; subst. reflexivity. Qed.

Lemma keeps_committed_bind {A B} (m : M A) (k : A -> M B) :
  keeps_committed m -> (forall a, keeps_committed (k a)) -> keeps_committed (bind m k).
Proof.
  intros Hm Hk w r w' H. apply bind_inv in H.
  destruct H as [(a & w1 & H1 & H2) | (e & H1 & ->)].
  - rewrite (Hk a _ _ _ H2). exact (Hm _ _ _ H1).
  - exact (Hm _ _ _ H1).
Qed.

Lemma keeps_committed_for_each {A} (l : list A) (body : A -> M unit) :
  (forall x, keeps_committed (body x)) -> keeps_committed (for_each l body).
Proof.
  intros Hb. induction l as [|x l IH]; cbn [for_each].
  - apply keeps_committed_ret.
  - apply keeps_committed_bind; auto.
Qed.

Lemma keeps_committed_step {A} (m : M A) :
  (forall w, committed (snd (m w)) = committed w) -> keeps_committed m.
Proof. intros Hm w r w' H. specialize (Hm w). rewrite H in Hm. exact Hm. Qed.

Lemma keeps_session_ret {A} (a : A) : keeps_session (ret a).
Proof. intros w r w' H. inversion H; subst. auto. Qed.

Lemma keeps_session_bind {A B} (m : M A) (k : A -> M B) :
  keeps_session m -> (forall a, keeps_session (k a)) -> keeps_session (bind m k).
Proof.
  intros Hm Hk w r w' H. apply bind_inv in H.
  destruct H as [(a & w1 & H1 & H2) | (e & H1 & ->)]; intros Hs.
  - exact (Hk a _ _ _ H2 (Hm _ _ _ H1 Hs)).
  - exact (Hm _ _ _ H1 Hs).
Qed.

Lemma keeps_session_for_each {A} (l : list A) (body : A -> M unit) :
  (forall x, keeps_session (body x)) -> keeps_session (for_each l body).
Proof.
  intros Hb. induction l as [|x l IH]; cbn [for_each].
  - apply keeps_session_ret.
  - apply keeps_session_bind; auto.
Qed.

Lemma keeps_session_step {A} (m : M A) :
  (forall w, session w <> None -> session (snd (m w)) <> None) -> keeps_session m.
Proof. intros Hm w r w' H. specialize (Hm w). rewrite H in Hm. exact Hm. Qed.

Lemma keeps_indexes_ret {A} (a : A) : keeps_indexes (ret a).
Proof. intros w r w' H. inversion H; subst. reflexivity. Qed.

Lemma keeps_indexes_bind {A B} (m : M A) (k : A -> M B) :
  keeps_indexes m -> (forall a, keeps_indexes (k a)) -> keeps_indexes (bind m k).
Proof.
  intros Hm Hk w r w' H. apply bind_inv in H.
  destruct H as [(a & w1 & H1 & H2) | (e & H1 & ->)].
  - rewrite (Hk a _ _ _ H2). exact (Hm _ _ _ H1).
  - exact (Hm _ _ _ H1).
Qed.

Lemma keeps_indexes_for_each {A} (l : list A) (body : A -> M unit) :
  (forall x, keeps_indexes (body x)) -> keeps_indexes (for_each l body).
Proof.
  intros Hb. induction l as [|x l IH]; cbn [for_each].
  - apply keeps_indexes_ret.
  - apply keeps_indexes_bind; auto.
Qed.

Lemma keeps_indexes_step {A} (m : M A) :
  (forall w, vector_indexes (snd (m w)) = vector_indexes w) -> keeps_indexes m.
Proof. intros Hm w r w' H. specialize (Hm w). rewrite H in Hm. exact Hm. Qed.

Section Facts.

Variable env : Env.

Lemma call_eq (e : Event) (w : World) :
  call env e w =
  (if fails env (ordinal w) then Raise (CallFailed e) else Ok (ordinal w), log e w).
Proof. unfold call. destruct (fails env (ordinal w)); reflexivity. Qed.

Lemma emits_call (Q : Event -> Prop) e : Q e -> emits Q (call env e).
Proof.
  intros He w r w' H. rewrite call_eq in H. inversion H; subst.
  exists [e]. auto.
Qed.

Lemma keeps_committed_call e : keeps_committed (call env e).
Proof. intros w r w' H. rewrite call_eq in H. inversion H; subst. reflexivity. Qed.

Lemma keeps_session_call e : keeps_session (call env e).
Proof. intros w r w' H. rewrite call_eq in H. inversion H; subst. auto. Qed.

Lemma keeps_indexes_call e : keeps_indexes (call env e).
Proof. intros w r w' H. rewrite call_eq in H. inversion H; subst. reflexivity. Qed.

Lemma propagates_ret {A} (a : A) : propagates env (ret a).
Proof.
  intros w r w' H. inversion H; subst. exists []. rewrite app_nil_r.
  split; [reflexivity|]. intros [|i] e He; discriminate.
Qed.

Lemma propagates_raise {A} e : propagates env (@raise A e).
Proof.
  intros w r w' H. inversion H; subst. exists []. rewrite app_nil_r.
  split; [reflexivity|]. intros [|i] e' He; discriminate.
Qed.

(** A step that leaves the trace alone. *)
Lemma propagates_silent {A} (m : M A) :
  (forall w, trace (snd (m w)) = trace w) -> propagates env m.
Proof.
  intros Hm w r w' H. specialize (Hm w). rewrite H in Hm. cbn [snd] in Hm.
  exists []. rewrite app_nil_r. split; [assumption|].
  intros [|i] e He; discriminate.
Qed.

(** A step answered locally. *)
Lemma propagates_local {A} (m : M A) :
  (forall w, exists e, fallible e = false /\ trace (snd (m w)) = trace w ++ [e]) ->
  propagates env m.
Proof.
  intros Hm w r w' H. destruct (Hm w) as (e & He & T). rewrite H in T. cbn [snd] in T.
  exists [e]. split; [assumption|].
  intros [|[|i]] e' Hn Hf; try discriminate. inversion Hn; subst. congruence.
Qed.

Lemma propagates_call e : propagates env (call env e).
Proof.
  intros w r w' H. rewrite call_eq in H. inversion H; subst.
  exists [e]. split; [reflexivity|].
  intros [|[|i]] e' Hn Hf Hfail; try discriminate.
  inversion Hn; subst. rewrite Nat.add_0_r in Hfail. rewrite Hfail. auto.
Qed.

Lemma propagates_bind {A B} (m : M A) (k : A -> M B) :
  propagates env m -> (forall a, propagates env (k a)) -> propagates env (bind m k).
Proof.
  intros Hm Hk w r w' H. apply bind_inv in H.
  destruct H as [(a & w1 & H1 & H2) | (e & H1 & ->)].
  - destruct (Hm _ _ _ H1) as (l1 & T1 & P1).
    destruct (Hk a _ _ _ H2) as (l2 & T2 & P2).
    exists (l1 ++ l2). rewrite T2, T1, app_assoc. split; [reflexivity|].
    intros i e Hn Hf Hfail.
    destruct (Nat.lt_ge_cases i (List.length l1)) as [Hlt | Hge].
    + rewrite nth_error_app1 in Hn by assumption.
      destruct (P1 i e Hn Hf Hfail) as [_ Habs]. discriminate.
    + rewrite nth_error_app2 in Hn by assumption.
      rewrite (ordinal_app _ _ _ T1) in P2.
      destruct (P2 (i - List.length l1)%nat e Hn Hf) as [Hlast Hr].
      { replace (ordinal w + List.length l1 + (i - List.length l1))%nat
          with (ordinal w + i)%nat by lia. assumption. }
      split; [rewrite length_app; lia | assumption].
  - destruct (Hm _ _ _ H1) as (l1 & T1 & P1). exists l1. split; [assumption|].
    intros i e' Hn Hf Hfail. destruct (P1 i e' Hn Hf Hfail) as [Hlast Hr].
    split; [assumption|]. congruence.
Qed.

Lemma propagates_for_each {A} (l : list A) (body : A -> M unit) :
  (forall x, propagates env (body x)) -> propagates env (for_each l body).
Proof.
  intros Hb. induction l as [|x l IH]; cbn [for_each].
  - apply propagates_ret.
  - apply propagates_bind; auto.
Qed.

Lemma blames_ret {A} (a : A) : blames_a_call env (ret a).
Proof. intros w e w' H. discriminate. Qed.

Lemma blames_call e : blames_a_call env (call env e).
Proof.
  intros w e' w' H. rewrite call_eq in H. exists (ordinal w).
  destruct (fails env (ordinal w)); [reflexivity|discriminate].
Qed.

Lemma blames_bind {A B} (m : M A) (k : A -> M B) :
  blames_a_call env m -> (forall a, blames_a_call env (k a)) ->
  blames_a_call env (bind m k).
Proof.
  intros Hm Hk w e w' H. apply bind_inv in H.
  destruct H as [(a & w1 & H1 & H2) | (e' & H1 & He)].
  - exact (Hk a _ _ _ H2).
  - injection He as <-. exact (Hm _ _ _ H1).
Qed.

Lemma blames_for_each {A} (l : list A) (body : A -> M unit) :
  (forall x, blames_a_call env (body x)) -> blames_a_call env (for_each l body).
Proof.
  intros Hb. induction l as [|x l IH]; cbn [for_each].
  - apply blames_ret.
  - apply blames_bind; auto.
Qed.

(** A step that raises at most an exception of the script's own. *)
Lemma blames_step {A} (m : M A) :
  (forall w e, fst (m w) <> Raise (CallFailed e)) -> blames_a_call env m.
Proof. intros Hm w e w' H. exfalso. apply (Hm w e). rewrite H. reflexivity. Qed.

End Facts.

(** Case analysis on whatever a step inspects. *)
Ltac split_matches :=
  repeat match goal with
         | |- context [match ?x with _ => _ end] => destruct x
         end.

Ltac open_primitives :=
  unfold get_conn, cursor_, execute, fetchone, fetchall, commit, close_cursor,
    close_conn, subscript0, fake_name_, fake_email_, fake_job_, fake_text_, randint,
    Embedding_create, list_indexes, create_index, upsert, py_print.

Ltac open_pairs :=
  repeat match goal with
         | x : (_ * _)%type |- _ => destruct x
         end.

(** [emits Q m] for a script [m], given that [Q] computes on each call. *)
Ltac emits_script :=
  open_primitives;
  repeat first
    [ apply emits_for_each
    | apply emits_bind
    | apply emits_ret
    | apply emits_raise
    | apply emits_call; reflexivity
    | match goal with |- forall _, _ => intro end; open_pairs
    | progress split_matches
    | apply emits_step; intros ?w; cbn;
      first [ left; split_matches; reflexivity
            | right; eexists; split; [|reflexivity]; reflexivity ] ].

Ltac propagates_script :=
  open_primitives;
  repeat first
    [ apply propagates_for_each
    | apply propagates_bind
    | apply propagates_ret
    | apply propagates_raise
    | apply propagates_call
    | match goal with |- forall _, _ => intro end; open_pairs
    | progress split_matches
    | apply propagates_silent; intros ?w; cbn; split_matches; reflexivity
    | apply propagates_local; intros ?w; cbn; eexists; split; [|reflexivity]; reflexivity ].

Ltac blames_script :=
  open_primitives;
  repeat first
    [ apply blames_for_each
    | apply blames_bind
    | apply blames_ret
    | apply blames_call
    | match goal with |- forall _, _ => intro end; open_pairs
    | progress split_matches
    | apply blames_step; intros ?w ?e; unfold raise; cbv beta; split_matches; cbn [fst]; discriminate ].

Ltac keeps_committed_script :=
  open_primitives;
  repeat first
    [ apply keeps_committed_for_each
    | apply keeps_committed_bind
    | apply keeps_committed_ret
    | apply keeps_committed_call
    | match goal with |- forall _, _ => intro end; open_pairs
    | progress split_matches
    | apply keeps_committed_step; intros ?w; cbn; split_matches; reflexivity ].

Ltac keeps_session_script :=
  open_primitives;
  repeat first
    [ apply keeps_session_for_each
    | apply keeps_session_bind
    | apply keeps_session_ret
    | apply keeps_session_call
    | match goal with |- forall _, _ => intro end; open_pairs
    | progress split_matches
    | apply keeps_session_step; intros ?w; cbn; split_matches; cbn; congruence ].

Ltac keeps_indexes_script :=
  open_primitives;
  repeat first
    [ apply keeps_indexes_for_each
    | apply keeps_indexes_bind
    | apply keeps_indexes_ret
    | apply keeps_indexes_call
    | match goal with |- forall _, _ => intro end; open_pairs
    | progress split_matches
    | apply keeps_indexes_step; intros ?w; cbn; split_matches; reflexivity ].

Section ScriptFacts.

Variable env : Env.

Lemma seed_embeddings_propagates : propagates env (seed_embeddings env).
Proof. unfold seed_embeddings. propagates_script. Qed.

Lemma seed_users_propagates : propagates env (seed_users env).
Proof. unfold seed_users. propagates_script. Qed.

Lemma seed_achievements_propagates : propagates env (seed_achievements env).
Proof. unfold seed_achievements. propagates_script. Qed.

Lemma seed_careers_propagates : propagates env (seed_careers env).
Proof. unfold seed_careers. propagates_script. Qed.

Lemma ensure_index_propagates : propagates env (ensure_index env).
Proof. unfold ensure_index. propagates_script. Qed.

Lemma seed_embeddings_blames : blames_a_call env (seed_embeddings env).
Proof. unfold seed_embeddings. blames_script. Qed.

Lemma seed_users_blames : blames_a_call env (seed_users env).
Proof. unfold seed_users. blames_script. Qed.

Lemma seed_achievements_blames : blames_a_call env (seed_achievements env).
Proof. unfold seed_achievements. blames_script. Qed.

Lemma seed_careers_blames : blames_a_call env (seed_careers env).
Proof. unfold seed_careers. blames_script. Qed.

Lemma seed_embeddings_no_create_index :
  emits (fun e => is_create_index e = false) (seed_embeddings env).
Proof. unfold seed_embeddings. emits_script. Qed.

Lemma seed_embeddings_keeps_indexes : keeps_indexes (seed_embeddings env).
Proof. unfold seed_embeddings. keeps_indexes_script. Qed.

End ScriptFacts.

(** ** The primitives as equations *)

Section Primitives.

Variable env : Env.

Lemma get_conn_eq w :
  get_conn env w =
  if fails env (ordinal w) then (Raise (CallFailed psycopg2_connect), log psycopg2_connect w)
  else (Ok tt, set_session (Some (committed w)) (log psycopg2_connect w)).
Proof. unfold get_conn, bind. rewrite call_eq. destruct (fails env (ordinal w)); reflexivity. Qed.

Lemma cursor_eq w :
  cursor_ env w =
  if fails env (ordinal w) then (Raise (CallFailed conn_cursor), log conn_cursor w)
  else (Ok tt, set_cursor NoRows (log conn_cursor w)).
Proof. unfold cursor_, bind. rewrite call_eq. destruct (fails env (ordinal w)); reflexivity. Qed.

Lemma execute_eq q w :
  execute env q w =
  if fails env (ordinal w) then (Raise (CallFailed (cur_execute q)), log (cur_execute q) w)
  else match session w with
       | None => (Raise ProgrammingError, log (cur_execute q) w)
       | Some d =>
           (Ok tt,
            set_cursor (snd (run_query (assigned_id env (ordinal w)) q d))
              (set_session (Some (fst (run_query (assigned_id env (ordinal w)) q d)))
                 (log (cur_execute q) w)))
       end.
Proof.
  unfold execute, bind. rewrite call_eq. destruct (fails env (ordinal w)); [reflexivity|].
  cbn [session log]. destruct (session w); [|reflexivity].
  destruct (run_query _ q d). reflexivity.
Qed.

Lemma fetchone_eq w :
  fetchone env w =
  if fails env (ordinal w) then (Raise (CallFailed cur_fetchone), log cur_fetchone w)
  else match cursor w with
       | IdRows (r :: rest) => (Ok (Some r), set_cursor (IdRows rest) (log cur_fetchone w))
       | IdRows [] => (Ok None, log cur_fetchone w)
       | _ => (Raise ProgrammingError, log cur_fetchone w)
       end.
Proof. unfold fetchone, bind. rewrite call_eq. destruct (fails env (ordinal w)); reflexivity. Qed.

Lemma fetchall_eq w :
  fetchall env w =
  if fails env (ordinal w) then (Raise (CallFailed cur_fetchall), log cur_fetchall w)
  else match cursor w with
       | ProfileRows rows => (Ok rows, set_cursor (ProfileRows []) (log cur_fetchall w))
       | _ => (Raise ProgrammingError, log cur_fetchall w)
       end.
Proof. unfold fetchall, bind. rewrite call_eq. destruct (fails env (ordinal w)); reflexivity. Qed.

Lemma commit_eq w :
  commit env w =
  if fails env (ordinal w) then (Raise (CallFailed conn_commit), log conn_commit w)
  else match session w with
       | None => (Raise ProgrammingError, log conn_commit w)
       | Some d => (Ok tt, set_committed d (log conn_commit w))
       end.
Proof. unfold commit, bind. rewrite call_eq. destruct (fails env (ordinal w)); reflexivity. Qed.

Lemma close_cursor_eq w :
  close_cursor env w =
  if fails env (ordinal w) then (Raise (CallFailed cur_close), log cur_close w)
  else (Ok tt, log cur_close w).
Proof. unfold close_cursor, bind. rewrite call_eq. destruct (fails env (ordinal w)); reflexivity. Qed.

Lemma close_conn_eq w :
  close_conn env w =
  if fails env (ordinal w) then (Raise (CallFailed conn_close), log conn_close w)
  else (Ok tt, set_session None (log conn_close w)).
Proof. unfold close_conn, bind. rewrite call_eq. destruct (fails env (ordinal w)); reflexivity. Qed.

Lemma list_indexes_eq w :
  list_indexes env w =
  if fails env (ordinal w)
  then (Raise (CallFailed pinecone_list_indexes), log pinecone_list_indexes w)
  else (Ok (vector_indexes w), log pinecone_list_indexes w).
Proof. unfold list_indexes, bind. rewrite call_eq. destruct (fails env (ordinal w)); reflexivity. Qed.

Lemma create_index_eq name dim w :
  create_index env name dim w =
  if fails env (ordinal w)
  then (Raise (CallFailed (pinecone_create_index name dim)), log (pinecone_create_index name dim) w)
  else (Ok tt, set_vector_indexes (vector_indexes w ++ [name]) (log (pinecone_create_index name dim) w)).
Proof. unfold create_index, bind. rewrite call_eq. destruct (fails env (ordinal w)); reflexivity. Qed.

End Primitives.

(** Runs the first step of the sequence in [H] by its equation [lem] and
    splits on whether the call fails. *)
Ltac run_with lem H :=
  unfold bind at 1 in H; rewrite lem in H;
  match type of H with
  | context [fails ?env (ordinal ?w)] =>
      let F := fresh "F" in destruct (fails env (ordinal w)) eqn:F
  end;
  cbv beta iota in H.

Ltac traced := cbn; rewrite <- ?app_assoc; reflexivity.


(** ** Runs of [seed_embeddings] *)

Section SyncRuns.

Variable env : Env.

Lemma sync_body_run row w r w1 :
  sync_body env row w = (r, w1) ->
  same_store w w1 /\
  ((r = Raise (CallFailed (openai_Embedding_create (snd row) "text-embedding-ada-002")) /\
    trace w1 = trace w ++ [openai_Embedding_create (snd row) "text-embedding-ada-002"]) \/
   (r = Raise IndexError /\
    trace w1 = trace w ++ [openai_Embedding_create (snd row) "text-embedding-ada-002"]) \/
   (exists emb,
      r = Raise (CallFailed (index_upsert index [(str (fst row), emb)])) /\
      trace w1 = trace w ++ sync_calls row emb) \/
   (exists emb, r = Ok tt /\ trace w1 = trace w ++ sync_calls row emb)).
Proof.
  destruct row as [uid text]. intros H.
  unfold sync_body, Embedding_create, upsert, bind, ret, raise in H.
  rewrite call_eq in H. destruct (fails env (ordinal w)) eqn:F1.
  { inversion H; subst. split; [apply same_store_log|]. left. split; reflexivity. }
  destruct (data _) as [|d ds] eqn:Hd.
  { inversion H; subst. split; [apply same_store_log|]. right; left. split; reflexivity. }
  rewrite call_eq in H. destruct (fails env (ordinal (log _ w))) eqn:F2; inversion H; subst.
  - split; [repeat split|]. right; right; left. exists (embedding d).
    split; [reflexivity|]. apply trace_log2.
  - split; [repeat split|]. do 3 right. exists (embedding d).
    split; [reflexivity|]. apply trace_log2.
Qed.

Lemma sync_loop rows : forall w r w',
  for_each rows (sync_body env) w = (r, w') ->
  same_store w w' /\
  exists k embs tail,
    List.length embs = k /\ (k <= List.length rows)%nat /\
    trace w' = trace w ++ synced (combine (firstn k rows) embs) ++ tail /\
    LoopEnd rows k r tail.
Proof.
  induction rows as [|row rows IH]; intros w r w' H.
  - inversion H; subst. split; [apply same_store_refl|].
    exists 0%nat, [], []. simpl. rewrite app_nil_r. repeat split; auto. constructor.
  - cbn [for_each] in H. apply bind_inv in H.
    destruct H as [([] & w1 & Hb & H) | (e & Hb & ->)];
      apply sync_body_run in Hb;
      destruct Hb as [Hs [[Hr Ht] | [[Hr Ht] | [(emb & Hr & Ht) | (emb & Hr & Ht)]]]];
      try discriminate.
    + apply IH in H. destruct H as [Hs' (k & embs & tail & Hl & Hk & Htr & Hend)].
      split; [eapply same_store_trans; eassumption|].
      exists (S k), (emb :: embs), tail. simpl. repeat split; try lia.
      * rewrite Htr, Ht. rewrite <- !app_assoc. reflexivity.
      * destruct Hend; constructor; assumption.
    + split; [assumption|]. exists 0%nat, [], [openai_Embedding_create (snd row) "text-embedding-ada-002"].
      simpl. repeat split; try lia; try assumption.
      injection Hr as ->. apply (EmbedFailed _ 0%nat row). reflexivity.
    + split; [assumption|]. exists 0%nat, [], [openai_Embedding_create (snd row) "text-embedding-ada-002"].
      simpl. repeat split; try lia; try assumption.
      injection Hr as ->. apply (NoDatum _ 0%nat row). reflexivity.
    + split; [assumption|]. exists 0%nat, [], (sync_calls row emb).
      simpl. repeat split; try lia; try assumption.
      injection Hr as ->. apply (UpsertFailed _ 0%nat row). reflexivity.
Qed.


Lemma seed_embeddings_run w r w' :
  seed_embeddings env w = (r, w') ->
  committed w' = committed w /\ vector_indexes w' = vector_indexes w /\
  SyncRun (profile_rows (committed w)) r (issued w w').
Proof.
  unfold seed_embeddings. intros H.
  run_with get_conn_eq H.
  { inversion H; subst. repeat split. erewrite issued_app by reflexivity.
    apply (FailedBeforeLoop _ [] _ (tl query_calls)). reflexivity. }
  run_with cursor_eq H.
  { inversion H; subst. repeat split. erewrite issued_app by traced.
    apply (FailedBeforeLoop _ [_] _ (skipn 2 query_calls)). reflexivity. }
  run_with execute_eq H.
  { inversion H; subst. repeat split. erewrite issued_app by traced.
    apply (FailedBeforeLoop _ [_; _] _ (skipn 3 query_calls)). reflexivity. }
  cbn [session set_cursor set_session log] in H.
  run_with fetchall_eq H.
  { inversion H; subst. repeat split. erewrite issued_app by traced.
    apply (FailedBeforeLoop _ [_; _; _] _ []). reflexivity. }
  cbn [session cursor set_cursor set_session log run_query snd fst] in H.
  clear F F0 F1 F2.
  change (fun '(uid, text) =>
            emb <- Embedding_create env text "text-embedding-ada-002";;
            upsert env index [(str uid, emb)]) with (sync_body env) in H.
  fold (profile_rows (committed w)) in H.
  unfold bind at 1 in H.
  destruct (for_each _ (sync_body env) _) as [[[]|e] w1] eqn:Hloop;
    apply sync_loop in Hloop;
    destruct Hloop as [(Hc & Hs & Hv) (k & embs & tail & Hl & Hk & Ht & Hend)];
    cbn in Hc, Hs, Hv; cbn [trace log set_cursor set_session] in Ht;
    rewrite <- ?app_assoc in Ht; cbn [app] in Ht.
  - apply LoopEnd_Ok_inv in Hend. destruct Hend as [Hlen ->].
    rewrite Hlen, firstn_all, app_nil_r in Ht. rewrite Hlen in Hl.
    unfold py_print in H. unfold bind at 1 in H. cbv beta iota in H.
    run_with close_cursor_eq H.
    { inversion H; subst. cbn. repeat split; try assumption.
      erewrite issued_app; [apply (LoopDone _ embs); [exact Hl|constructor]|].
      cbn. rewrite Ht. rewrite <- !app_assoc. reflexivity. }
    rewrite close_conn_eq in H.
    destruct (fails env _) eqn:F0 in H; inversion H; subst; cbn; repeat split; try assumption.
    + erewrite issued_app; [apply (LoopDone _ embs); [exact Hl|constructor]|].
      cbn. rewrite Ht. rewrite <- !app_assoc. reflexivity.
    + erewrite issued_app; [apply (LoopDone _ embs); [exact Hl|constructor]|].
      cbn. rewrite Ht. rewrite <- !app_assoc. reflexivity.
  - inversion H; subst. repeat split; try assumption.
    erewrite issued_app; [apply (FailedInLoop _ embs tail); eassumption|].
    exact Ht.
Qed.

End SyncRuns.

(** ** Runs of the seeders *)

Lemma Forall_filter_nil {A} (f : A -> bool) (l : list A) :
  Forall (fun x => f x = false) l -> filter f l = [].
Proof.
  induction 1 as [|x l Hx _ IH]; cbn; [reflexivity|]. rewrite Hx. exact IH.
Qed.

Section BatchRuns.

Variable env : Env.

Lemma batch_run loop msg w r w' :
  keeps_committed loop -> keeps_session loop ->
  emits (fun e => is_commit e = false) loop ->
  batch env loop msg w = (r, w') ->
  BatchRun msg w w' r.
Proof.
  intros Hkc Hks Hem H. unfold batch in H.
  run_with get_conn_eq H.
  { inversion H; subst. apply BatchAborted; [reflexivity|].
    erewrite issued_app by reflexivity. reflexivity. }
  run_with cursor_eq H.
  { inversion H; subst. apply BatchAborted; [reflexivity|].
    erewrite issued_app by traced. reflexivity. }
  clear F F0.
  unfold bind at 1 in H.
  destruct (loop _) as [[[]|e] w1] eqn:Hloop;
    pose proof (Hkc _ _ _ Hloop) as Hc;
    pose proof (Hks _ _ _ Hloop) as Hs;
    destruct (Hem _ _ _ Hloop) as (body & Ht & Hq);
    apply Forall_filter_nil in Hq;
    cbn in Hc, Hs; cbn [trace log set_cursor set_session] in Ht;
    rewrite <- ?app_assoc in Ht; cbn [app] in Ht.
  2:{ inversion H; subst. apply BatchAborted; [assumption|].
      erewrite issued_app by eassumption. cbn. assumption. }
  destruct (session w1) as [d|] eqn:Hd; [clear Hs | exfalso; apply Hs; congruence].
  run_with commit_eq H.
  { inversion H; subst. apply BatchCommitFailed; [assumption|].
    erewrite issued_app by (cbn; rewrite Ht, <- app_assoc; reflexivity).
    cbn. rewrite filter_app, Hq. reflexivity. }
  cbn [session log] in H. rewrite Hd in H.
  run_with close_cursor_eq H.
  { inversion H; subst. eapply BatchCloseFailed; [apply CursorCloseFailed|].
    erewrite issued_app by (cbn; rewrite Ht, <- !app_assoc; reflexivity).
    cbn. rewrite filter_app, Hq. reflexivity. }
  run_with close_conn_eq H.
  { inversion H; subst. eapply BatchCloseFailed; [apply ConnCloseFailed|].
    erewrite issued_app by (cbn; rewrite Ht, <- !app_assoc; reflexivity).
    cbn. rewrite filter_app, Hq. reflexivity. }
  unfold py_print in H. inversion H; subst.
  apply (BatchDone _ _ _ body); [|assumption].
  apply issued_app. cbn. rewrite Ht, <- !app_assoc. reflexivity.
Qed.

End BatchRuns.

Section SeederRuns.

Variable env : Env.

Lemma seed_users_batch : seed_users env = batch env (for_each (range 20) (users_body env)) "✅ Users seeded".
Proof. reflexivity. Qed.

Lemma seed_achievements_batch :
  seed_achievements env =
  batch env (for_each achievements (achievements_body env)) "✅ Achievements seeded".
Proof. reflexivity. Qed.

Lemma seed_careers_batch :
  seed_careers env = batch env (for_each careers (careers_body env)) "✅ Careers seeded".
Proof. reflexivity. Qed.

(** Where the committed rows of a seeder's run come from: nothing was
    committed, or the loop completed and its view was committed. *)
Lemma batch_inv loop msg w r w' :
  keeps_committed loop ->
  batch env loop msg w = (r, w') ->
  (committed w' = committed w /\ r <> Ok tt) \/
  (exists w1 d,
     loop (connected w) = (Ok tt, w1) /\ session w1 = Some d /\ committed w' = d /\
     (r = Ok tt ->
      trace w' = trace w1 ++ [conn_commit; cur_close; conn_close; print msg])).
Proof.
  intros Hkc H. unfold batch in H.
  run_with get_conn_eq H.
  { inversion H; subst. left. split; [reflexivity|discriminate]. }
  run_with cursor_eq H.
  { inversion H; subst. left. split; [reflexivity|discriminate]. }
  fold (connected w) in H. clear F F0.
  unfold bind at 1 in H.
  destruct (loop (connected w)) as [[[]|e] w1] eqn:Hloop;
    pose proof (Hkc _ _ _ Hloop) as Hc; cbn in Hc.
  2:{ inversion H; subst. left. split; [assumption|discriminate]. }
  run_with commit_eq H.
  { inversion H; subst. left. split; [assumption|discriminate]. }
  cbn [session log] in H.
  destruct (session w1) as [d|] eqn:Hd.
  2:{ inversion H; subst. left. split; [assumption|discriminate]. }
  right. exists w1, d. split; [reflexivity|]. split; [assumption|].
  run_with close_cursor_eq H.
  { inversion H; subst. split; [reflexivity|discriminate]. }
  run_with close_conn_eq H.
  { inversion H; subst. split; [reflexivity|discriminate]. }
  unfold py_print in H. inversion H; subst. split; [reflexivity|].
  intros _. cbn. rewrite <- !app_assoc. reflexivity.
Qed.

Lemma connected_session w : session (connected w) = Some (committed w).
Proof. reflexivity. Qed.

Lemma connected_trace w : trace (connected w) = trace w ++ [psycopg2_connect; conn_cursor].
Proof. cbn. rewrite <- app_assoc. reflexivity. Qed.

(** *** [seed_users] *)

Lemma users_body_ok x w w1 d :
  users_body env x w = (Ok tt, w1) ->
  session w = Some d ->
  exists up,
    session w1 =
      Some (mkDatabase (db_users d ++ [fst up]) (db_user_profiles d ++ [snd up])
              (db_achievements d) (db_career_paths d)) /\
    p_user_id (snd up) = u_id (fst up) /\
    (exists n, u_id (fst up) = assigned_id env n) /\
    trace w1 = trace w ++ user_calls up.
Proof.
  intros H Hs. unfold users_body in H.
  unfold fake_name_, fake_email_, fake_job_, fake_text_ in H.
  do 4 (unfold bind at 1 in H; cbv beta iota in H).
  run_with execute_eq H; [discriminate|].
  cbn [session log] in H. rewrite Hs in H.
  run_with fetchone_eq H; [discriminate|].
  cbn [cursor set_cursor set_session log run_query snd fst] in H.
  unfold bind at 1 in H. unfold subscript0, ret in H. cbv beta iota in H.
  rewrite execute_eq in H.
  destruct (fails env _) eqn:F1 in H; [discriminate|].
  cbn [session cursor set_cursor set_session log run_query snd fst] in H.
  inversion H; subst; clear H.
  eexists (mkUser _ _ _, mkUserProfile _ _ _ _). cbn.
  split; [reflexivity|]. split; [reflexivity|]. split; [eexists; reflexivity|].
  rewrite <- !app_assoc. reflexivity.
Qed.

Lemma users_loop_ok l : forall w w1 d,
  for_each l (users_body env) w = (Ok tt, w1) ->
  session w = Some d ->
  exists ups,
    List.length ups = List.length l /\
    session w1 =
      Some (mkDatabase (db_users d ++ map fst ups) (db_user_profiles d ++ map snd ups)
              (db_achievements d) (db_career_paths d)) /\
    Forall (fun up => p_user_id (snd up) = u_id (fst up) /\
                      exists n, u_id (fst up) = assigned_id env n) ups /\
    trace w1 = trace w ++ flat_map user_calls ups.
Proof.
  induction l as [|x l IH]; intros w w1 d H Hs.
  - inversion H; subst. exists []. cbn. rewrite !app_nil_r.
    destruct d; cbn. auto.
  - cbn [for_each] in H. apply bind_inv in H.
    destruct H as [([] & w0 & Hb & H) | (e & _ & He)]; [|discriminate].
    destruct (users_body_ok _ _ _ _ Hb Hs) as (up & Hs0 & Hfk & Hid & Ht0).
    destruct (IH _ _ _ H Hs0) as (ups & Hlen & Hs1 & Hall & Ht1).
    exists (up :: ups). cbn [List.length map flat_map db_users db_user_profiles
                              db_achievements db_career_paths] in *.
    split; [congruence|]. split.
    { rewrite Hs1, <- !app_assoc. reflexivity. }
    split; [constructor; auto|].
    rewrite Ht1, Ht0, <- app_assoc. reflexivity.
Qed.

Lemma users_body_capped x : emits (capped_text env) (users_body env x).
Proof.
  unfold users_body.
  do 3 (apply emits_bind; [emits_script|intro]).
  unfold fake_text_. intros w r w' H. unfold bind at 1 in H. cbv beta iota in H.
  assert (Hrest : emits (capped_text env)
            (execute env (INSERT_users a a0) ;;
             row <- fetchone env ;;
             user_id <- subscript0 row ;;
             execute env (INSERT_user_profiles user_id a1
                            (faker_text env (ordinal w) 500)))).
  { open_primitives.
    repeat first
      [ apply emits_bind
      | apply emits_ret
      | apply emits_raise
      | apply emits_call; cbn; first [exact I | eexists; reflexivity]
      | match goal with |- forall _, _ => intro end
      | progress split_matches
      | apply emits_step; intros ?w; cbn; left; split_matches; reflexivity ]. }
  destruct (Hrest _ _ _ H) as (l & Ht & Hl).
  exists (fake_text 500 :: l). split.
  - rewrite Ht. cbn. rewrite <- app_assoc. reflexivity.
  - constructor; [reflexivity|assumption].
Qed.

Lemma seed_users_capped : emits (capped_text env) (seed_users env).
Proof.
  rewrite seed_users_batch. unfold batch.
  do 2 (apply emits_bind; [emits_script|intro]).
  apply emits_bind; [apply emits_for_each; apply users_body_capped|intro].
  emits_script.
Qed.

(** *** Conflict-tolerant inserts, seen on the titles *)

Lemma existsb_eqb_In (t : string) (ts : list string) :
  existsb (String.eqb t) ts = true <-> In t ts.
Proof.
  rewrite existsb_exists. split.
  - intros (x & Hx & He). apply String.eqb_eq in He. subst. assumption.
  - intros H. exists t. split; [assumption|apply String.eqb_refl].
Qed.

Lemma has_achievement_titles t rows :
  has_achievement t rows = existsb (String.eqb t) (map a_title rows).
Proof.
  unfold has_achievement. induction rows as [|r rows IH]; cbn; [reflexivity|].
  rewrite IH, (String.eqb_sym (a_title r) t). reflexivity.
Qed.

Lemma has_career_path_titles t rows :
  has_career_path t rows = existsb (String.eqb t) (map c_title rows).
Proof.
  unfold has_career_path. induction rows as [|r rows IH]; cbn; [reflexivity|].
  rewrite IH, (String.eqb_sym (c_title r) t). reflexivity.
Qed.

Lemma In_add_title ts t x : In x (add_title ts t) <-> In x ts \/ x = t.
Proof.
  unfold add_title. destruct (existsb (String.eqb t) ts) eqn:E.
  - apply existsb_eqb_In in E. split; [auto|]. intros [H| ->]; assumption.
  - rewrite in_app_iff. cbn. intuition.
Qed.

Lemma In_add_titles l : forall ts x, In x (add_titles ts l) <-> In x ts \/ In x l.
Proof.
  unfold add_titles. induction l as [|t l IH]; intros ts x; cbn.
  - intuition.
  - rewrite IH, In_add_title. intuition.
Qed.

Lemma NoDup_add_title ts t : NoDup ts -> NoDup (add_title ts t).
Proof.
  intros H. unfold add_title. destruct (existsb (String.eqb t) ts) eqn:E; [assumption|].
  apply NoDup_app; [assumption|repeat constructor; auto|].
  intros x Hx [<-|[]]. apply existsb_eqb_In in Hx. congruence.
Qed.

Lemma NoDup_add_titles l : forall ts, NoDup ts -> NoDup (add_titles ts l).
Proof.
  unfold add_titles. induction l as [|t l IH]; intros ts H; cbn; [assumption|].
  apply IH, NoDup_add_title, H.
Qed.

(** Titles that are all there already change nothing. *)
Lemma add_titles_present l : forall ts,
  (forall t, In t l -> In t ts) -> add_titles ts l = ts.
Proof.
  unfold add_titles. induction l as [|t l IH]; intros ts H; cbn; [reflexivity|].
  assert (E : add_title ts t = ts).
  { unfold add_title. destruct (existsb (String.eqb t) ts) eqn:E; [reflexivity|].
    assert (In t ts) as Hin by (apply H; left; reflexivity).
    apply existsb_eqb_In in Hin. congruence. }
  rewrite E. apply IH. intros x Hx. apply H. right. assumption.
Qed.

Lemma add_titles_app ts l1 l2 :
  add_titles ts (l1 ++ l2) = add_titles (add_titles ts l1) l2.
Proof. unfold add_titles. apply fold_left_app. Qed.

(** The size of the union. *)
Lemma add_titles_length ts l :
  NoDup ts ->
  List.length (add_titles ts l) = List.length (nodup string_dec (ts ++ l)).
Proof.
  intros H. apply Permutation_length, NoDup_Permutation.
  - apply NoDup_add_titles, H.
  - apply NoDup_nodup.
  - intros x. rewrite In_add_titles, nodup_In, in_app_iff. reflexivity.
Qed.

(** Seeding over a table that already holds the seeded titles, wholly or
    up to any point, leaves the titles as they are. *)
Lemma add_titles_again ts l j :
  add_titles (add_titles ts l) (firstn j l) = add_titles ts l.
Proof.
  apply add_titles_present. intros t Ht. apply In_add_titles. right.
  rewrite <- (firstn_skipn j l). apply in_app_iff. left. assumption.
Qed.

(** *** [seed_achievements] and [seed_careers] *)

Lemma achievements_loop l : forall w r w1 d,
  for_each l (achievements_body env) w = (r, w1) ->
  session w = Some d ->
  exists d' j,
    session w1 = Some d' /\
    db_career_paths d' = db_career_paths d /\
    achievement_titles d' =
      add_titles (achievement_titles d) (firstn j (map (fun x => fst (fst x)) l)) /\
    (r = Ok tt ->
     j = List.length l /\
     trace w1 = trace w ++
       map (fun x => cur_execute (INSERT_achievements (fst (fst x)) (snd (fst x)) (snd x))) l).
Proof.
  induction l as [|[[t ds] p] l IH]; intros w r w1 d H Hs.
  - inversion H; subst. exists d, 0%nat. cbn. rewrite app_nil_r. auto.
  - cbn [for_each] in H. unfold achievements_body at 1 in H.
    run_with execute_eq H.
    { inversion H; subst. exists d, 0%nat. cbn. repeat split; auto; discriminate. }
    cbn [session log] in H. rewrite Hs in H.
    match type of H with
    | for_each _ _ ?w0 = _ => assert (Hs0 : session w0 = Some (fst (run_query (assigned_id env (ordinal w)) (INSERT_achievements t ds p) d))) by reflexivity
    end.
    destruct (IH _ _ _ _ H Hs0) as (d' & j & Hs1 & Hcp & Hti & Hok).
    exists d', (S j). split; [assumption|]. split.
    { rewrite Hcp. cbn. destruct (has_achievement t (db_achievements d)); reflexivity. }
    split.
    { rewrite Hti. cbn [map firstn fst]. unfold add_titles at 2. cbn [fold_left].
      fold (add_titles (add_title (achievement_titles d) t)
              (firstn j (map (fun x => fst (fst x)) l))).
      f_equal. unfold achievement_titles, add_title. cbn.
      rewrite has_achievement_titles.
      destruct (existsb _ _); cbn; [reflexivity|].
      rewrite map_app. reflexivity. }
    intros Hr. destruct (Hok Hr) as [-> Ht]. split; [reflexivity|].
    rewrite Ht. cbn. rewrite <- app_assoc. reflexivity.
Qed.

(** One conflict-tolerant insert into [career_paths]. *)
Lemma career_insert_run c ds s ls w r w1 d :
  execute env (INSERT_career_paths c ds s ls) w = (r, w1) ->
  session w = Some d ->
  trace w1 = trace w ++ [cur_execute (INSERT_career_paths c ds s ls)] /\
  ((r <> Ok tt /\ session w1 = Some d) \/
   (r = Ok tt /\
    exists d1, session w1 = Some d1 /\
      db_achievements d1 = db_achievements d /\
      career_titles d1 = add_title (career_titles d) c)).
Proof.
  intros H Hs. rewrite execute_eq in H.
  destruct (fails env (ordinal w)) eqn:F.
  { injection H as <- <-. split; [reflexivity|]. left. split; [discriminate|exact Hs]. }
  cbn [session log] in H. rewrite Hs in H. injection H as <- <-.
  split; [reflexivity|]. right. split; [reflexivity|].
  eexists. split; [reflexivity|].
  cbn [run_query fst]. rewrite has_career_path_titles. unfold career_titles, add_title.
  destruct (existsb _ _); cbn [db_achievements db_career_paths];
    [split; reflexivity|].
  rewrite map_app. split; reflexivity.
Qed.

Lemma randint_range a b x : a <= b -> a <= a + x mod (b - a + 1) <= b.
Proof. intros H. pose proof (Z.mod_pos_bound x (b - a + 1)). lia. Qed.

Lemma careers_loop l : forall w r w1 d,
  for_each l (careers_body env) w = (r, w1) ->
  session w = Some d ->
  exists d' j,
    session w1 = Some d' /\
    db_achievements d' = db_achievements d /\
    career_titles d' = add_titles (career_titles d) (firstn j l) /\
    (r = Ok tt ->
     j = List.length l /\
     exists salaries,
       List.length salaries = List.length l /\
       Forall (fun s => 60000 <= s <= 180000) salaries /\
       trace w1 = trace w ++ flat_map career_calls (combine l salaries)).
Proof.
  induction l as [|c l IH]; intros w r w1 d H Hs.
  - injection H as <- <-. exists d, 0%nat.
    split; [assumption|]. do 2 (split; [reflexivity|]). intros _. split; [reflexivity|].
    exists []. cbn [combine flat_map List.length]. rewrite app_nil_r. auto.
  - cbn [for_each] in H. unfold careers_body at 1 in H.
    unfold randint in H. unfold bind at 1 2 in H. cbv beta iota in H.
    pose proof (randint_range 60000 180000 (entropy env (ordinal w))) as Hrange.
    set (salary := 60000 + entropy env (ordinal w) mod (180000 - 60000 + 1)) in *.
    clearbody salary.
    destruct (execute env _ _) as [[[]|e] w0] eqn:Hex;
      destruct (career_insert_run _ _ _ _ _ _ _ d Hex Hs)
        as [Ht0 [[Hr Hs0] | [Hr (d1 & Hs0 & Hac0 & Hti0)]]];
      try discriminate; try (exfalso; apply Hr; reflexivity).
    + destruct (IH _ _ _ _ H Hs0) as (d' & j & Hs1 & Hac & Hti & Hok).
      exists d', (S j). split; [assumption|]. split; [congruence|]. split.
      { rewrite Hti, Hti0. reflexivity. }
      intros Hr'. destruct (Hok Hr') as [-> (salaries & Hlen & Hsal & Ht)].
      split; [reflexivity|]. exists (salary :: salaries).
      cbn [List.length combine flat_map]. split; [congruence|]. split.
      { constructor; [apply Hrange; lia|assumption]. }
      rewrite Ht, Ht0. cbn [trace log]. rewrite <- !app_assoc. reflexivity.
    + injection H as <- <-. exists d, 0%nat. split; [assumption|].
      do 2 (split; [reflexivity|]). discriminate.
Qed.

End SeederRuns.

(** ** Reading the observations off a run's shape *)

Lemma upserted_keys_app l1 l2 :
  upserted_keys (l1 ++ l2) = upserted_keys l1 ++ upserted_keys l2.
Proof. apply flat_map_app. Qed.

Lemma embedded_texts_app l1 l2 :
  embedded_texts (l1 ++ l2) = embedded_texts l1 ++ embedded_texts l2.
Proof. apply flat_map_app. Qed.

Lemma executed_app l1 l2 : executed (l1 ++ l2) = executed l1 ++ executed l2.
Proof. apply flat_map_app. Qed.

Lemma printed_app l1 l2 : printed (l1 ++ l2) = printed l1 ++ printed l2.
Proof. apply flat_map_app. Qed.

Lemma upserted_keys_synced done :
  upserted_keys (synced done) = map (fun re => str (fst (fst re))) done.
Proof. induction done as [|re done IH]; cbn; [reflexivity|]. f_equal. exact IH. Qed.

Lemma embedded_texts_synced done :
  embedded_texts (synced done) = map (fun re => snd (fst re)) done.
Proof. induction done as [|re done IH]; cbn; [reflexivity|]. f_equal. exact IH. Qed.

Lemma printed_synced done : printed (synced done) = [].
Proof. induction done as [|re done IH]; cbn; [reflexivity|exact IH]. Qed.

Lemma embedding_calls_synced done :
  List.length (filter is_embedding_call (synced done)) = List.length done.
Proof. induction done as [|re done IH]; cbn; [reflexivity|]. f_equal. exact IH. Qed.

Lemma upserts_synced done :
  List.length (filter is_upsert (synced done)) = List.length done.
Proof. induction done as [|re done IH]; cbn; [reflexivity|]. f_equal. exact IH. Qed.

Lemma synced_length done : List.length (synced done) = (2 * List.length done)%nat.
Proof.
  induction done as [|re done IH]; [reflexivity|].
  cbn [synced flat_map sync_calls List.length app]. fold (synced done). lia.
Qed.

Lemma map_fst_combine {A B C} (f : A -> C) (l : list A) : forall (l' : list B),
  List.length l = List.length l' ->
  map (fun p => f (fst p)) (combine l l') = map f l.
Proof.
  induction l as [|x l IH]; intros [|y l'] H; try discriminate; cbn; [reflexivity|].
  f_equal. apply IH. injection H as H. exact H.
Qed.

Lemma firstn_succ_nth {A} (l : list A) : forall k x,
  nth_error l k = Some x -> firstn (S k) l = firstn k l ++ [x].
Proof.
  induction l as [|y l IH]; intros [|k] x H; try discriminate.
  - inversion H; subst. reflexivity.
  - change (y :: firstn (S k) l = y :: (firstn k l ++ [x])). f_equal. apply IH, H.
Qed.

Lemma nth_error_firstn_length {A} (l : list A) k x :
  nth_error l k = Some x -> List.length (firstn k l) = k.
Proof.
  intros H. apply firstn_length_le, Nat.lt_le_incl, nth_error_Some. congruence.
Qed.

Lemma Closing_no_sync r post :
  Closing r post ->
  upserted_keys post = [] /\ embedded_texts post = [] /\
  filter is_embedding_call post = [] /\ filter is_upsert post = [].
Proof. destruct 1; repeat split. Qed.

Lemma query_prefix_no_sync pre e post :
  query_calls = pre ++ e :: post ->
  upserted_keys (pre ++ [e]) = [] /\ embedded_texts (pre ++ [e]) = [] /\
  printed (pre ++ [e]) = [] /\ In e query_calls.
Proof.
  intros H.
  assert (Hin : In e query_calls) by (rewrite H; apply in_elt).
  unfold query_calls in H.
  destruct pre as [|a [|b [|c [|d pre]]]]; inversion H; subst;
    try (repeat split; try reflexivity; assumption).
  destruct pre; discriminate.
Qed.

Lemma LoopEnd_bound rows k r tail :
  LoopEnd rows k r tail -> (k <= List.length rows)%nat.
Proof.
  destruct 1; [reflexivity| | |];
    apply Nat.lt_le_incl, nth_error_Some; congruence.
Qed.

Lemma SyncRun_keys rows r l :
  SyncRun rows r l ->
  exists j, upserted_keys l = map (fun row => str (fst row)) (firstn j rows).
Proof.
  destruct 1 as [pre e post Hq | embs tail e Hend | embs r post Hlen Hcl].
  - exists 0%nat. apply query_prefix_no_sync in Hq. tauto.
  - pose proof (LoopEnd_bound _ _ _ _ Hend) as Hk.
    rewrite !upserted_keys_app, upserted_keys_synced.
    rewrite (map_fst_combine (fun row => str (fst row)))
      by (rewrite firstn_length_le; auto).
    inversion Hend as [| k row Hn | k row Hn | k row emb Hn]; subst.
    + exists (List.length embs). cbn. rewrite app_nil_r. reflexivity.
    + exists (List.length embs). cbn. rewrite app_nil_r. reflexivity.
    + exists (S (List.length embs)).
      rewrite (firstn_succ_nth _ _ _ Hn), map_app. reflexivity.
  - exists (List.length rows).
    rewrite !upserted_keys_app, upserted_keys_synced. cbn [upserted_keys flat_map app].
    fold (upserted_keys post). destruct (Closing_no_sync _ _ Hcl) as (-> & _).
    rewrite app_nil_r, firstn_all.
    rewrite (map_fst_combine (fun row => str (fst row))) by auto.
    reflexivity.
Qed.

Lemma SyncRun_Ok rows l :
  SyncRun rows (Ok tt) l ->
  exists embs,
    List.length embs = List.length rows /\
    l = query_calls ++ synced (combine rows embs) ++
        [print "✅ Embeddings synced"; cur_close; conn_close].
Proof.
  intros H. inversion H as [| | embs r post Hlen Hcl]; subst.
  inversion Hcl; subst. exists embs. auto.
Qed.

Lemma SyncRun_embedding_failed rows t m l :
  SyncRun rows (Raise (CallFailed (openai_Embedding_create t m))) l ->
  exists k row embs,
    List.length embs = k /\ nth_error rows k = Some row /\ snd row = t /\
    l = query_calls ++ synced (combine (firstn k rows) embs) ++
        [openai_Embedding_create t m].
Proof.
  intros H. inversion H as [pre e post Hq | embs tail e Hend | embs r post Hlen Hcl]; subst.
  - apply query_prefix_no_sync in Hq. destruct Hq as (_ & _ & _ & Hin).
    cbn in Hin. intuition discriminate.
  - inversion Hend as [| k row Hn | k row Hn | k row emb Hn]; subst.
    exists (List.length embs), row, embs. auto.
  - inversion Hcl.
Qed.

Lemma SyncRun_no_rows r l :
  SyncRun [] r l ->
  embedded_texts l = [] /\ upserted_keys l = [] /\
  ((exists e, In e query_calls /\ r = Raise (CallFailed e) /\ printed l = []) \/
   (exists post, Closing r post /\
                 l = query_calls ++ print "✅ Embeddings synced" :: post)).
Proof.
  destruct 1 as [pre e post Hq | embs tail e Hend | embs r post Hlen Hcl].
  - apply query_prefix_no_sync in Hq. destruct Hq as (Hu & He & Hp & Hin).
    do 2 (split; [assumption|]). left. exists e. auto.
  - inversion Hend as [| k row Hn | k row Hn | k row emb Hn]; subst;
      destruct (List.length embs); discriminate.
  - destruct embs; [|discriminate]. cbn [combine synced flat_map app].
    destruct (Closing_no_sync _ _ Hcl) as (Hu & He & _).
    split; [exact He|]. split; [exact Hu|].
    right. exists post. auto.
Qed.

(** ** What the seeders' runs amount to *)

Lemma executed_user_calls ups :
  executed (flat_map user_calls ups) = flat_map user_inserts ups.
Proof. induction ups as [|up ups IH]; cbn; [reflexivity|]. do 2 f_equal. exact IH. Qed.

Lemma executed_career_calls l :
  executed (flat_map career_calls l) =
  map (fun cs => INSERT_career_paths (fst cs) ("A career as " ++ fst cs)%string
                   (snd cs) lifestyle) l.
Proof. induction l as [|cs l IH]; cbn; [reflexivity|]. f_equal. exact IH. Qed.

Lemma executed_map_execute {A} (f : A -> Query) l :
  executed (map (fun x => cur_execute (f x)) l) = map f l.
Proof. induction l as [|x l IH]; cbn; [reflexivity|]. f_equal. exact IH. Qed.

Lemma In_executed q l : In q (executed l) <-> In (cur_execute q) l.
Proof.
  unfold executed. rewrite in_flat_map. split.
  - intros (e & He & Hq). destruct e; cbn in Hq; try contradiction.
    destruct Hq as [->|[]]. assumption.
  - intros H. exists (cur_execute q). split; [assumption|left; reflexivity].
Qed.

Section SeederFacts.

Variable env : Env.

Lemma users_loop_keeps_committed l : keeps_committed (for_each l (users_body env)).
Proof. unfold users_body. keeps_committed_script. Qed.

Lemma users_loop_keeps_session l : keeps_session (for_each l (users_body env)).
Proof. unfold users_body. keeps_session_script. Qed.

Lemma users_loop_no_commit l :
  emits (fun e => is_commit e = false) (for_each l (users_body env)).
Proof. unfold users_body. emits_script. Qed.

Lemma achievements_loop_keeps_committed l :
  keeps_committed (for_each l (achievements_body env)).
Proof. unfold achievements_body. keeps_committed_script. Qed.

Lemma achievements_loop_keeps_session l :
  keeps_session (for_each l (achievements_body env)).
Proof. unfold achievements_body. keeps_session_script. Qed.

Lemma achievements_loop_no_commit l :
  emits (fun e => is_commit e = false) (for_each l (achievements_body env)).
Proof. unfold achievements_body. emits_script. Qed.

Lemma careers_loop_keeps_committed l : keeps_committed (for_each l (careers_body env)).
Proof. unfold careers_body. keeps_committed_script. Qed.

Lemma careers_loop_keeps_session l : keeps_session (for_each l (careers_body env)).
Proof. unfold careers_body. keeps_session_script. Qed.

Lemma careers_loop_no_commit l :
  emits (fun e => is_commit e = false) (for_each l (careers_body env)).
Proof. unfold careers_body. emits_script. Qed.

(** A successful run of [seed_users]: the rows it committed and the
    statements it sent. *)
Lemma seed_users_ok w w' :
  seed_users env w = (Ok tt, w') ->
  exists ups,
    List.length ups = 20%nat /\
    db_users (committed w') = db_users (committed w) ++ map fst ups /\
    db_user_profiles (committed w') = db_user_profiles (committed w) ++ map snd ups /\
    Forall (fun up => p_user_id (snd up) = u_id (fst up) /\
                      exists n, u_id (fst up) = assigned_id env n) ups /\
    executed (issued w w') = flat_map user_inserts ups.
Proof.
  intros H. rewrite seed_users_batch in H.
  apply batch_inv in H; [|apply users_loop_keeps_committed].
  destruct H as [[_ Hbad] | (w1 & d & Hloop & Hs & Hc & Ht)]; [congruence|].
  specialize (Ht eq_refl).
  destruct (users_loop_ok env _ _ _ _ Hloop (connected_session w))
    as (ups & Hlen & Hs1 & Hall & Ht1).
  exists ups. rewrite Hs in Hs1. injection Hs1 as ->. cbn in Hc.
  split; [exact Hlen|]. rewrite Hc. cbn. do 2 (split; [reflexivity|]).
  split; [assumption|].
  rewrite (issued_app w w'
             ([psycopg2_connect; conn_cursor] ++ flat_map user_calls ups ++
              [conn_commit; cur_close; conn_close; print "✅ Users seeded"])).
  - rewrite !executed_app, executed_user_calls. cbn. rewrite app_nil_r. reflexivity.
  - rewrite Ht, Ht1, connected_trace, <- !app_assoc. reflexivity.
Qed.

(** Any run of a seeder, successful or not: the titles it committed. *)
Lemma seed_achievements_titles w r w' :
  seed_achievements env w = (r, w') ->
  exists j,
    achievement_titles (committed w') =
      add_titles (achievement_titles (committed w))
        (firstn j (map (fun x => fst (fst x)) achievements)) /\
    (r = Ok tt -> j = List.length achievements).
Proof.
  intros H. rewrite seed_achievements_batch in H.
  apply batch_inv in H; [|apply achievements_loop_keeps_committed].
  destruct H as [[Hc Hbad] | (w1 & d & Hloop & Hs & Hc & Ht)].
  - exists 0%nat. rewrite Hc. split; [reflexivity|]. intros Hr. contradiction.
  - destruct (achievements_loop env _ _ _ _ _ Hloop (connected_session w))
      as (d' & j & Hs1 & _ & Hti & Hok).
    rewrite Hs in Hs1. injection Hs1 as <-. subst d.
    exists j. split; [exact Hti|].
    intros _. exact (proj1 (Hok eq_refl)).
Qed.

Lemma seed_careers_titles w r w' :
  seed_careers env w = (r, w') ->
  exists j,
    career_titles (committed w') =
      add_titles (career_titles (committed w)) (firstn j careers) /\
    (r = Ok tt -> j = List.length careers).
Proof.
  intros H. rewrite seed_careers_batch in H.
  apply batch_inv in H; [|apply careers_loop_keeps_committed].
  destruct H as [[Hc Hbad] | (w1 & d & Hloop & Hs & Hc & Ht)].
  - exists 0%nat. rewrite Hc. split; [reflexivity|]. intros Hr. contradiction.
  - destruct (careers_loop env _ _ _ _ _ Hloop (connected_session w))
      as (d' & j & Hs1 & _ & Hti & Hok).
    rewrite Hs in Hs1. injection Hs1 as <-. subst d.
    exists j. split; [exact Hti|].
    intros _. exact (proj1 (Hok eq_refl)).
Qed.

(** The statements a successful run sent. *)
Lemma seed_achievements_ok w w' :
  seed_achievements env w = (Ok tt, w') ->
  executed (issued w w') =
  map (fun x => INSERT_achievements (fst (fst x)) (snd (fst x)) (snd x)) achievements.
Proof.
  intros H. rewrite seed_achievements_batch in H.
  apply batch_inv in H; [|apply achievements_loop_keeps_committed].
  destruct H as [[_ Hbad] | (w1 & d & Hloop & Hs & Hc & Ht)]; [congruence|].
  specialize (Ht eq_refl).
  destruct (achievements_loop env _ _ _ _ _ Hloop (connected_session w))
    as (d' & j & _ & _ & _ & Hok).
  destruct (Hok eq_refl) as [_ Ht1].
  rewrite (issued_app w w'
             ([psycopg2_connect; conn_cursor] ++
              map (fun x => cur_execute
                     (INSERT_achievements (fst (fst x)) (snd (fst x)) (snd x)))
                achievements ++
              [conn_commit; cur_close; conn_close; print "✅ Achievements seeded"])).
  - reflexivity.
  - rewrite Ht, Ht1, connected_trace, <- !app_assoc. reflexivity.
Qed.

Lemma seed_careers_ok w w' :
  seed_careers env w = (Ok tt, w') ->
  exists salaries,
    List.length salaries = List.length careers /\
    Forall (fun s => 60000 <= s <= 180000) salaries /\
    executed (issued w w') =
    map (fun cs => INSERT_career_paths (fst cs) ("A career as " ++ fst cs)%string
                     (snd cs) lifestyle)
      (combine careers salaries).
Proof.
  intros H. rewrite seed_careers_batch in H.
  apply batch_inv in H; [|apply careers_loop_keeps_committed].
  destruct H as [[_ Hbad] | (w1 & d & Hloop & Hs & Hc & Ht)]; [congruence|].
  specialize (Ht eq_refl).
  destruct (careers_loop env _ _ _ _ _ Hloop (connected_session w))
    as (d' & j & _ & _ & _ & Hok).
  destruct (Hok eq_refl) as [_ (salaries & Hlen & Hrange & Ht1)].
  exists salaries. do 2 (split; [assumption|]).
  rewrite (issued_app w w'
             ([psycopg2_connect; conn_cursor] ++
              flat_map career_calls (combine careers salaries) ++
              [conn_commit; cur_close; conn_close; print "✅ Careers seeded"])).
  - rewrite !executed_app, executed_career_calls. cbn [executed flat_map app].
    rewrite app_nil_r. reflexivity.
  - rewrite Ht, Ht1, connected_trace, <- !app_assoc. reflexivity.
Qed.

(** Seeding again over a seeded table keeps its row count, whatever
    becomes of the second run. *)
Lemma reseeding_keeps_titles (ts0 ts1 ts2 seed : list string) j1 j2 :
  ts1 = add_titles ts0 (firstn j1 seed) -> j1 = List.length seed ->
  ts2 = add_titles ts1 (firstn j2 seed) ->
  ts2 = ts1.
Proof.
  intros -> -> ->. rewrite firstn_all. apply add_titles_again.
Qed.

(** A seeder's commits, in a run of the shape of [batch]. *)
Lemma batch_commits_once loop msg w r w' :
  keeps_committed loop -> keeps_session loop ->
  emits (fun e => is_commit e = false) loop ->
  propagates env (batch env loop msg) ->
  batch env loop msg w = (r, w') ->
  (r = Ok tt ->
   exists before after,
     issued w w' = before ++ conn_commit :: after /\
     filter is_commit before = [] /\ filter is_commit after = [] /\
     executed after = []) /\
  (forall i q,
     nth_error (issued w w') i = Some (cur_execute q) ->
     fails env (ordinal w + i) = true ->
     r = Raise (CallFailed (cur_execute q)) /\
     committed w' = committed w /\
     filter is_commit (issued w w') = []) /\
  (List.length (filter is_commit (issued w w')) <= 1)%nat.
Proof.
  intros Hkc Hks Hem Hprop H.
  destruct (Hprop _ _ _ H) as (l & Ht & Hp).
  pose proof (batch_run env _ _ _ _ _ Hkc Hks Hem H) as Hrun.
  pose proof (issued_app _ _ _ Ht) as Hl.
  split; [|split].
  - intros ->. inversion Hrun as [body Hi Hb | | |]; subst.
    exists (psycopg2_connect :: conn_cursor :: body),
           [cur_close; conn_close; print msg].
    rewrite Hi. split; [reflexivity|]. split; [exact Hb|]. split; reflexivity.
  - intros i q Hn Hf. rewrite Hl in Hn. destruct (Hp i _ Hn eq_refl Hf) as [_ ->].
    split; [reflexivity|].
    inversion Hrun as [ | e Hc Hq | | e post Hcl Hq]; subst.
    + auto.
    + inversion Hcl.
  - inversion Hrun as [body Hi Hb | e Hc Hq | Hc Hq | e post Hcl Hq]; subst.
    + rewrite Hi. cbn. rewrite filter_app, Hb. cbn. lia.
    + rewrite Hq. cbn. lia.
    + rewrite Hq. lia.
    + rewrite Hq. lia.
Qed.

End SeederFacts.

(** * The claims *)

(** ** Embedding sync *)

(** The keys the sync sends are the [id] column of the rows of
    [user_profiles], in order, up to where the run stopped. *)
Lemma sync_keys_are_row_ids env w r w' :
  seed_embeddings env w = (r, w') ->
  exists j,
    upserted_keys (issued w w') =
    map (fun p => str (p_id p)) (firstn j (db_user_profiles (committed w))).
Proof.
  intros H. apply seed_embeddings_run in H. destruct H as (_ & _ & H).
  apply SyncRun_keys in H. destruct H as (j & H). exists j.
  rewrite H. unfold profile_rows. rewrite firstn_map, map_map. reflexivity.
Qed.

(** C1, at a failing input: the profile stored as row 1 of [user_profiles]
    belongs to user 2; the sync upserts its vector under the key ["1"],
    the row's own id, while the stringified User identifier is ["2"]. *)
Theorem sync_key_is_profile_row_id_not_user_id :
  upserted_keys
    (issued second_user_profile (snd (seed_embeddings calm second_user_profile))) = ["1"] /\
  map (fun p => str (p_user_id p)) (db_user_profiles (committed second_user_profile)) = ["2"] /\
  fst (seed_embeddings calm second_user_profile) = Ok tt.
Proof. vm_compute. repeat split. Qed.

(** C2: a run of the sync that completes without error issued one
    embedding-service call and one upsert per profile row the query read. *)
Theorem sync_calls_match_rows_read env w w' :
  seed_embeddings env w = (Ok tt, w') ->
  List.length (filter is_embedding_call (issued w w')) =
    List.length (db_user_profiles (committed w)) /\
  List.length (filter is_upsert (issued w w')) =
    List.length (db_user_profiles (committed w)).
Proof.
  intros H. apply seed_embeddings_run in H. destruct H as (_ & _ & H).
  apply SyncRun_Ok in H. destruct H as (embs & Hlen & ->).
  unfold profile_rows in *. rewrite length_map in Hlen.
  rewrite !filter_app, !length_app, embedding_calls_synced, upserts_synced.
  rewrite length_combine, length_map, Hlen, Nat.min_id. cbn. lia.
Qed.

(** Three stored profiles: three embedding calls and three upserts. *)
Lemma sync_calls_match_rows_read_witness :
  List.length (filter is_embedding_call
    (issued three_profiles (snd (seed_embeddings calm three_profiles)))) = 3%nat /\
  List.length (filter is_upsert
    (issued three_profiles (snd (seed_embeddings calm three_profiles)))) = 3%nat.
Proof.
  apply (sync_calls_match_rows_read calm three_profiles
           (snd (seed_embeddings calm three_profiles))).
  vm_compute. reflexivity.
Defined.

(** C5: when the embedding-service call for a row fails, the run's result
    is that call's exception and the call is the last one of the run; the
    rows before it were embedded and upserted, in order, and nothing was
    upserted for the failing row or any later one; the failing row's text
    was sent once (no retry), nothing was printed and nothing was written
    to the store (no resumption marker). *)
Theorem embedding_failure_aborts_sync env w r w' i t m :
  seed_embeddings env w = (r, w') ->
  nth_error (issued w w') i = Some (openai_Embedding_create t m) ->
  fails env (ordinal w + i) = true ->
  r = Raise (CallFailed (openai_Embedding_create t m)) /\
  S i = List.length (issued w w') /\
  exists k row,
    nth_error (profile_rows (committed w)) k = Some row /\ snd row = t /\
    upserted_keys (issued w w') =
      map (fun row => str (fst row)) (firstn k (profile_rows (committed w))) /\
    embedded_texts (issued w w') =
      map snd (firstn k (profile_rows (committed w))) ++ [t] /\
    printed (issued w w') = [] /\
    committed w' = committed w.
Proof.
  intros H Hn Hf.
  destruct (seed_embeddings_propagates env _ _ _ H) as (l & Ht & Hp).
  rewrite (issued_app _ _ _ Ht) in *.
  destruct (Hp i _ Hn eq_refl Hf) as [Hlast ->].
  split; [reflexivity|]. split; [assumption|].
  apply seed_embeddings_run in H. destruct H as (Hc & _ & H).
  rewrite (issued_app _ _ _ Ht) in H.
  apply SyncRun_embedding_failed in H.
  destruct H as (k & row & embs & Hlen & Hrow & Hsnd & ->).
  exists k, row. do 2 (split; [assumption|]).
  assert (Hk : List.length (firstn k (profile_rows (committed w))) = List.length embs).
  { rewrite Hlen. eapply nth_error_firstn_length, Hrow. }
  split; [|split; [|split]].
  - rewrite !upserted_keys_app, upserted_keys_synced.
    rewrite (map_fst_combine (fun row => str (fst row))) by assumption.
    cbn. rewrite app_nil_r. reflexivity.
  - rewrite !embedded_texts_app, embedded_texts_synced.
    rewrite (map_fst_combine snd) by assumption. reflexivity.
  - rewrite !printed_app, printed_synced. reflexivity.
  - assumption.
Qed.

(** Three stored profiles, the second embedding call (ordinal 6) fails:
    the first row is upserted, the other two are not. *)
Lemma embedding_failure_aborts_sync_witness :
  fst (seed_embeddings (failing_at 6) three_profiles) =
    Raise (CallFailed (openai_Embedding_create "Draws things." "text-embedding-ada-002")) /\
  upserted_keys
    (issued three_profiles (snd (seed_embeddings (failing_at 6) three_profiles))) = ["1"].
Proof.
  destruct (embedding_failure_aborts_sync (failing_at 6) three_profiles
              (fst (seed_embeddings (failing_at 6) three_profiles))
              (snd (seed_embeddings (failing_at 6) three_profiles))
              6%nat "Draws things." "text-embedding-ada-002")
    as (Hr & _ & k & row & _ & _ & _ & _ & _ & _).
  - vm_compute. reflexivity.
  - vm_compute. reflexivity.
  - vm_compute. reflexivity.
  - split; [exact Hr|]. vm_compute. reflexivity.
Defined.

(** C9: with no row in [user_profiles] the sync calls neither the
    embedding service nor the index.  Unless one of the four connection
    and query calls itself raises, it prints the success message and goes
    on to close the cursor and the connection; when no call raises the run
    succeeds, and its calls are the query, the message and the two closes. *)
Theorem empty_table_sync_is_vacuous env w r w' :
  db_user_profiles (committed w) = [] ->
  seed_embeddings env w = (r, w') ->
  embedded_texts (issued w w') = [] /\
  upserted_keys (issued w w') = [] /\
  ((exists e, In e query_calls /\ r = Raise (CallFailed e)) \/
   (exists post, Closing r post /\
      issued w w' = query_calls ++ print "✅ Embeddings synced" :: post)) /\
  ((forall n, fails env n = false) ->
   r = Ok tt /\
   issued w w' =
     query_calls ++ [print "✅ Embeddings synced"; cur_close; conn_close]).
Proof.
  intros Hrows Hrun. pose proof Hrun as H.
  apply seed_embeddings_run in H. destruct H as (_ & _ & H).
  unfold profile_rows in H. rewrite Hrows in H. cbn [map] in H.
  apply SyncRun_no_rows in H. destruct H as (He & Hu & Hsh).
  do 2 (split; [assumption|]). split.
  - destruct Hsh as [(e & Hin & Hr & _) | Hpost]; [left; eauto | right; assumption].
  - intros Hcalm.
    assert (Hno : forall e, r <> Raise (CallFailed e)).
    { intros e ->. destruct (seed_embeddings_blames env _ _ _ Hrun) as (n & Hn).
      rewrite Hcalm in Hn. discriminate. }
    destruct Hsh as [(e & Hin & Hr & _) | (post & Hcl & ->)].
    + exfalso. exact (Hno e Hr).
    + destruct Hcl; [split; reflexivity| |]; exfalso; eapply Hno; reflexivity.
Qed.

(** No profile stored, no call failing. *)
Lemma empty_table_sync_is_vacuous_witness :
  fst (seed_embeddings calm fresh_world) = Ok tt /\
  issued fresh_world (snd (seed_embeddings calm fresh_world)) =
    query_calls ++ [print "✅ Embeddings synced"; cur_close; conn_close].
Proof.
  refine (proj2 (proj2 (proj2
    (empty_table_sync_is_vacuous calm fresh_world
       (fst (seed_embeddings calm fresh_world))
       (snd (seed_embeddings calm fresh_world)) _ _))) _).
  - reflexivity.
  - vm_compute. reflexivity.
  - intros n. reflexivity.
Defined.

Lemma ordinal_log (e : Event) (w : World) : ordinal (log e w) = S (ordinal w).
Proof. unfold ordinal, log. cbn [trace]. rewrite length_app. cbn. lia. Qed.

(** The index ensure at the top of load_embeddings.py. *)
Lemma ensure_index_run env w r w1 :
  ensure_index env w = (r, w1) ->
  exists l,
    trace w1 = trace w ++ l /\
    (In index_name (vector_indexes w) -> filter is_create_index l = []) /\
    (~ In index_name (vector_indexes w) ->
     fails env (ordinal w) = false -> fails env (S (ordinal w)) = false ->
     filter is_create_index l = [pinecone_create_index "career-mirror" 1536]) /\
    (List.length (filter is_create_index l) <= 1)%nat.
Proof.
  intros H. unfold ensure_index in H.
  unfold bind at 1 in H. rewrite call_eq in H.
  destruct (fails env (ordinal w)) eqn:F0.
  { injection H as <- <-. exists [pinecone_init]. cbn.
    repeat split; auto; discriminate. }
  run_with list_indexes_eq H.
  { injection H as <- <-. exists [pinecone_init; pinecone_list_indexes].
    split; [apply trace_log2|]. rewrite ordinal_log in F. cbn.
    repeat split; auto; congruence. }
  cbn [vector_indexes log] in H.
  destruct (existsb (String.eqb index_name) (vector_indexes w)) eqn:E; cbn [negb] in H.
  - apply existsb_eqb_In in E. injection H as <- <-.
    exists [pinecone_init; pinecone_list_indexes].
    split; [apply trace_log2|]. cbn. repeat split; auto. intros Hn. contradiction.
  - assert (Hout : ~ In index_name (vector_indexes w)).
    { intros Hin. apply existsb_eqb_In in Hin. congruence. }
    rewrite create_index_eq in H.
    exists [pinecone_init; pinecone_list_indexes; pinecone_create_index index_name 1536].
    assert (Ht : trace w1 = trace w ++
              [pinecone_init; pinecone_list_indexes; pinecone_create_index index_name 1536]).
    { destruct (fails env _) in H; injection H as <- <-;
        cbn; rewrite <- !app_assoc; reflexivity. }
    split; [exact Ht|]. cbn. repeat split; auto. intros Hin. contradiction.
Qed.

(** C7: over a whole run of the embedding-sync script, [create_index] is
    not called when the index list names ["career-mirror"]; when the list
    answered by the vector store does not name it, [create_index] is
    called exactly once, for ["career-mirror"] with dimension 1536.  No
    run calls it twice. *)
Theorem index_created_only_when_absent env w r w' :
  load_embeddings_main env w = (r, w') ->
  (In index_name (vector_indexes w) ->
   filter is_create_index (issued w w') = []) /\
  (~ In index_name (vector_indexes w) ->
   fails env (ordinal w) = false -> fails env (S (ordinal w)) = false ->
   filter is_create_index (issued w w') = [pinecone_create_index "career-mirror" 1536]) /\
  (List.length (filter is_create_index (issued w w')) <= 1)%nat.
Proof.
  intros H. unfold load_embeddings_main in H. apply bind_inv in H.
  destruct H as [([] & w1 & He & Hs) | (e & He & ->)];
    apply ensure_index_run in He; destruct He as (l & Ht & Hin & Hout & Hle).
  - destruct (seed_embeddings_no_create_index env _ _ _ Hs) as (l2 & Ht2 & Hq).
    apply Forall_filter_nil in Hq.
    rewrite (issued_app w w' (l ++ l2)) by (rewrite Ht2, Ht, app_assoc; reflexivity).
    rewrite filter_app, Hq, app_nil_r. auto.
  - rewrite (issued_app _ _ _ Ht). auto.
Qed.

(** An empty vector store: the index is created once; a store that lists
    the index: it is not created. *)
Lemma index_created_only_when_absent_witness :
  filter is_create_index
    (issued fresh_world (snd (load_embeddings_main calm fresh_world))) =
    [pinecone_create_index "career-mirror" 1536] /\
  filter is_create_index
    (issued three_profiles (snd (load_embeddings_main calm three_profiles))) = [].
Proof.
  split.
  - refine (proj1 (proj2 (index_created_only_when_absent calm fresh_world
             (fst (load_embeddings_main calm fresh_world))
             (snd (load_embeddings_main calm fresh_world)) _)) _ _ _).
    + vm_compute. reflexivity.
    + cbn. tauto.
    + reflexivity.
    + reflexivity.
  - refine (proj1 (index_created_only_when_absent calm three_profiles
             (fst (load_embeddings_main calm three_profiles))
             (snd (load_embeddings_main calm three_profiles)) _) _).
    + vm_compute. reflexivity.
    + cbn. tauto.
Defined.

(** ** Seeders *)

(** C3: once a reference-data seeder has run, running it again leaves the
    row count of its table as it was, whether the second run completes or
    not.  Over a table with unique titles the count after the two runs is
    the number of distinct titles among the stored and the seeded ones; an
    empty [achievements] table ends with 2 rows. *)
Theorem reseeding_keeps_row_count env w w1 r2 w2 :
  (seed_achievements env w = (Ok tt, w1) ->
   seed_achievements env w1 = (r2, w2) ->
   List.length (db_achievements (committed w2)) =
     List.length (db_achievements (committed w1)) /\
   (NoDup (achievement_titles (committed w)) ->
    List.length (db_achievements (committed w2)) =
      List.length (nodup string_dec
                     (achievement_titles (committed w) ++ achievement_seed_titles))) /\
   (db_achievements (committed w) = [] ->
    List.length (db_achievements (committed w2)) = 2%nat)) /\
  (seed_careers env w = (Ok tt, w1) ->
   seed_careers env w1 = (r2, w2) ->
   List.length (db_career_paths (committed w2)) =
     List.length (db_career_paths (committed w1)) /\
   (NoDup (career_titles (committed w)) ->
    List.length (db_career_paths (committed w2)) =
      List.length (nodup string_dec (career_titles (committed w) ++ careers)))).
Proof.
  split; intros H1 H2.
  - apply seed_achievements_titles in H1. destruct H1 as (j1 & Ht1 & Hj1).
    apply seed_achievements_titles in H2. destruct H2 as (j2 & Ht2 & _).
    specialize (Hj1 eq_refl).
    assert (E : achievement_titles (committed w2) = achievement_titles (committed w1)).
    { eapply reseeding_keeps_titles; [exact Ht1| |exact Ht2].
      rewrite Hj1. unfold achievements. reflexivity. }
    assert (L : forall d, List.length (db_achievements d) =
                          List.length (achievement_titles d)).
    { intros d. unfold achievement_titles. rewrite length_map. reflexivity. }
    rewrite !L, E.
    assert (U : NoDup (achievement_titles (committed w)) ->
                List.length (achievement_titles (committed w1)) =
                List.length (nodup string_dec
                   (achievement_titles (committed w) ++ achievement_seed_titles))).
    { intros Hnd. rewrite Ht1, Hj1. rewrite <- add_titles_length by assumption.
      reflexivity. }
    split; [reflexivity|]. split; [exact U|].
    intros Hempty. rewrite U.
    + unfold achievement_titles. rewrite Hempty. reflexivity.
    + unfold achievement_titles. rewrite Hempty. constructor.
  - apply seed_careers_titles in H1. destruct H1 as (j1 & Ht1 & Hj1).
    apply seed_careers_titles in H2. destruct H2 as (j2 & Ht2 & _).
    specialize (Hj1 eq_refl).
    assert (E : career_titles (committed w2) = career_titles (committed w1)).
    { eapply reseeding_keeps_titles; [exact Ht1|exact Hj1|exact Ht2]. }
    assert (L : forall d, List.length (db_career_paths d) =
                          List.length (career_titles d)).
    { intros d. unfold career_titles. rewrite length_map. reflexivity. }
    rewrite !L, E. split; [reflexivity|].
    intros Hnd. rewrite Ht1, Hj1, firstn_all. apply add_titles_length, Hnd.
Qed.

(** Seeding twice into an empty store: 2 achievements, not 4, and 5
    career paths, not 10. *)
Lemma reseeding_keeps_row_count_witness :
  List.length (db_achievements (committed
    (snd (seed_achievements calm (snd (seed_achievements calm fresh_world)))))) = 2%nat /\
  List.length (db_career_paths (committed
    (snd (seed_careers calm (snd (seed_careers calm fresh_world)))))) = 5%nat.
Proof.
  split.
  - refine (proj2 (proj2 (proj1
      (reseeding_keeps_row_count calm fresh_world
         (snd (seed_achievements calm fresh_world))
         (fst (seed_achievements calm (snd (seed_achievements calm fresh_world))))
         (snd (seed_achievements calm (snd (seed_achievements calm fresh_world)))))
      _ _)) _).
    + vm_compute. reflexivity.
    + vm_compute. reflexivity.
    + reflexivity.
  - refine (proj2 (proj2
      (reseeding_keeps_row_count calm fresh_world
         (snd (seed_careers calm fresh_world))
         (fst (seed_careers calm (snd (seed_careers calm fresh_world))))
         (snd (seed_careers calm (snd (seed_careers calm fresh_world)))))
      _ _) _).
    + vm_compute. reflexivity.
    + vm_compute. reflexivity.
    + constructor.
Defined.

(** C4: a successful run of the profile seeder commits exactly 20 new
    [users] rows and 20 new [user_profiles] rows; the i-th new profile
    refers to the id the store assigned to the i-th new user, and the
    statements sent are, pair by pair, the user's insert followed by its
    profile's insert. *)
Theorem seed_users_creates_linked_rows env w w' :
  seed_users env w = (Ok tt, w') ->
  exists ups : list (User * UserProfile),
    List.length ups = 20%nat /\
    db_users (committed w') = db_users (committed w) ++ map fst ups /\
    db_user_profiles (committed w') = db_user_profiles (committed w) ++ map snd ups /\
    Forall (fun up => p_user_id (snd up) = u_id (fst up) /\
                      exists n, u_id (fst up) = assigned_id env n) ups /\
    executed (issued w w') = flat_map user_inserts ups.
Proof. apply seed_users_ok. Qed.

(** Seeding an empty store: 20 users, 20 profiles. *)
Lemma seed_users_creates_linked_rows_witness :
  exists ups : list (User * UserProfile),
    List.length ups = 20%nat /\
    db_users (committed (snd (seed_users calm fresh_world))) = [] ++ map fst ups /\
    db_user_profiles (committed (snd (seed_users calm fresh_world))) = [] ++ map snd ups /\
    Forall (fun up => p_user_id (snd up) = u_id (fst up) /\
                      exists n, u_id (fst up) = assigned_id calm n) ups /\
    executed (issued fresh_world (snd (seed_users calm fresh_world))) =
      flat_map user_inserts ups.
Proof.
  apply (seed_users_creates_linked_rows calm fresh_world
           (snd (seed_users calm fresh_world))).
  vm_compute. reflexivity.
Defined.

(** C6: each of the three seeders commits once, after its inserts, and
    a failed insert leaves nothing committed (see [commits_once_at_end]). *)
Theorem seeders_commit_once_at_end :
  commits_once_at_end seed_users /\
  commits_once_at_end seed_achievements /\
  commits_once_at_end seed_careers.
Proof.
  split; [|split]; intros env w r w' H.
  - rewrite seed_users_batch in H.
    refine (batch_commits_once env _ _ _ _ _ _ _ _ _ H).
    + apply users_loop_keeps_committed.
    + apply users_loop_keeps_session.
    + apply users_loop_no_commit.
    + exact (seed_users_propagates env).
  - rewrite seed_achievements_batch in H.
    refine (batch_commits_once env _ _ _ _ _ _ _ _ _ H).
    + apply achievements_loop_keeps_committed.
    + apply achievements_loop_keeps_session.
    + apply achievements_loop_no_commit.
    + exact (seed_achievements_propagates env).
  - rewrite seed_careers_batch in H.
    refine (batch_commits_once env _ _ _ _ _ _ _ _ _ H).
    + apply careers_loop_keeps_committed.
    + apply careers_loop_keeps_session.
    + apply careers_loop_no_commit.
    + exact (seed_careers_propagates env).
Qed.

(** The second achievement insert (ordinal 3) fails: the run ends with its
    exception and the store holds no achievement. *)
Lemma seeders_commit_once_at_end_witness :
  fst (seed_achievements (failing_at 3) fresh_world) =
    Raise (CallFailed (cur_execute (INSERT_achievements "Learner" "Took a course" 100))) /\
  committed (snd (seed_achievements (failing_at 3) fresh_world)) = empty_database /\
  filter is_commit
    (issued fresh_world (snd (seed_achievements (failing_at 3) fresh_world))) = [].
Proof.
  refine (proj1 (proj2 (proj1 (proj2 seeders_commit_once_at_end)
            (failing_at 3) fresh_world
            (fst (seed_achievements (failing_at 3) fresh_world))
            (snd (seed_achievements (failing_at 3) fresh_world)) _))
          3%nat (INSERT_achievements "Learner" "Took a course" 100) _ _).
  - vm_compute. reflexivity.
  - vm_compute. reflexivity.
  - reflexivity.
Defined.

(** C8 as stated fails for the career paths: two runs in sequence, both
    successful, send different [avg_salary] values. *)
Lemma career_salaries_differ_between_runs :
  fst (seed_careers calm fresh_world) = Ok tt /\
  fst (seed_careers calm (snd (seed_careers calm fresh_world))) = Ok tt /\
  executed (issued fresh_world (snd (seed_careers calm fresh_world))) <>
  executed (issued (snd (seed_careers calm fresh_world))
              (snd (seed_careers calm (snd (seed_careers calm fresh_world))))).
Proof.
  split; [vm_compute; reflexivity|]. split; [vm_compute; reflexivity|].
  vm_compute. discriminate.
Qed.

(** C8, amended: a successful run of the achievements seeder sends one
    insert per tuple of its hardcoded list, the same statements on every
    run.  A successful run of the career-paths seeder sends one insert per
    title of its hardcoded list; title, description and lifestyle are the
    same on every run, and the salary is drawn for each insert, between
    60000 and 180000. *)
Theorem seeders_send_fixed_rows_and_drawn_salaries env w w' :
  (seed_achievements env w = (Ok tt, w') ->
   executed (issued w w') =
     [INSERT_achievements "First Steps" "Completed first analysis" 50;
      INSERT_achievements "Learner" "Took a course" 100] /\
   forall env2 w2 w2',
     seed_achievements env2 w2 = (Ok tt, w2') ->
     executed (issued w2 w2') = executed (issued w w')) /\
  (seed_careers env w = (Ok tt, w') ->
   exists salaries,
     List.length salaries = 5%nat /\
     Forall (fun s => 60000 <= s <= 180000) salaries /\
     executed (issued w w') =
       map (fun cs => career_insert (fst cs) (snd cs)) (combine careers salaries)).
Proof.
  split; intros H.
  - split; [exact (seed_achievements_ok env _ _ H)|].
    intros env2 w2 w2' H2.
    rewrite (seed_achievements_ok env _ _ H), (seed_achievements_ok env2 _ _ H2).
    reflexivity.
  - exact (seed_careers_ok env _ _ H).
Qed.

(** Both seeders on an empty store. *)
Lemma seeders_send_fixed_rows_and_drawn_salaries_witness :
  executed (issued fresh_world (snd (seed_achievements calm fresh_world))) =
    [INSERT_achievements "First Steps" "Completed first analysis" 50;
     INSERT_achievements "Learner" "Took a course" 100] /\
  exists salaries,
    List.length salaries = 5%nat /\
    Forall (fun s => 60000 <= s <= 180000) salaries /\
    executed (issued fresh_world (snd (seed_careers calm fresh_world))) =
      map (fun cs => career_insert (fst cs) (snd cs)) (combine careers salaries).
Proof.
  split.
  - refine (proj1 (proj1 (seeders_send_fixed_rows_and_drawn_salaries calm fresh_world
                     (snd (seed_achievements calm fresh_world))) _)).
    vm_compute. reflexivity.
  - apply (proj2 (seeders_send_fixed_rows_and_drawn_salaries calm fresh_world
                    (snd (seed_careers calm fresh_world)))).
    vm_compute. reflexivity.
Defined.

(** C10: given that Faker's [text(max_nb_chars=500)] answers at most 500
    characters, every text the profile seeder is handed was asked for
    with the cap 500, every [user_profiles] insert it sends carries at
    most 500 characters, and so do the 20 rows a successful run commits. *)
Theorem profile_text_at_most_500 env w r w' :
  (forall n, (String.length (faker_text env n 500) <= 500)%nat) ->
  seed_users env w = (r, w') ->
  (forall m, In (fake_text m) (issued w w') -> m = 500%nat) /\
  (forall uid h t,
     In (cur_execute (INSERT_user_profiles uid h t)) (issued w w') ->
     (String.length t <= 500)%nat) /\
  (r = Ok tt ->
   exists new,
     List.length new = 20%nat /\
     db_user_profiles (committed w') = db_user_profiles (committed w) ++ new /\
     Forall (fun p => (String.length (p_profile_text p) <= 500)%nat) new).
Proof.
  intros Hcap H.
  destruct (seed_users_capped env _ _ _ H) as (l & Ht & Hl).
  rewrite (issued_app _ _ _ Ht) in *. rewrite Forall_forall in Hl.
  assert (Hsent : forall uid h t,
            In (cur_execute (INSERT_user_profiles uid h t)) l ->
            (String.length t <= 500)%nat).
  { intros uid h t Hin. destruct (Hl _ Hin) as (n & ->). apply Hcap. }
  split; [|split].
  - intros m Hin. exact (Hl _ Hin).
  - exact Hsent.
  - intros ->. destruct (seed_users_ok env _ _ H) as (ups & Hlen & _ & Hp & _ & Hex).
    rewrite (issued_app _ _ _ Ht) in Hex.
    exists (map snd ups). rewrite length_map. do 2 (split; [assumption|]).
    rewrite Forall_forall. intros p Hin. apply in_map_iff in Hin.
    destruct Hin as (up & <- & Hin).
    apply (Hsent (u_id (fst up)) (p_headline (snd up))).
    apply In_executed. rewrite Hex. apply in_flat_map. exists up.
    split; [assumption|]. right. left. reflexivity.
Qed.

Lemma profile_text_at_most_500_witness :
  exists new,
    List.length new = 20%nat /\
    db_user_profiles (committed (snd (seed_users calm fresh_world))) = [] ++ new /\
    Forall (fun p => (String.length (p_profile_text p) <= 500)%nat) new.
Proof.
  refine (proj2 (proj2 (profile_text_at_most_500 calm fresh_world
            (fst (seed_users calm fresh_world)) (snd (seed_users calm fresh_world))
            _ _)) _).
  - intros n. vm_compute. lia.
  - vm_compute. reflexivity.
  - vm_compute. reflexivity.
Defined.

(** * Further properties of the scripts *)

(** ** More composition rules *)

Lemma accounts_ret {A} (a : A) : accounts (ret a).
Proof.
  intros w r w' H. injection H as <- <-. exists []. rewrite app_nil_r.
  split; [reflexivity|]. intros e He. discriminate.
Qed.

Lemma accounts_bind {A B} (m : M A) (k : A -> M B) :
  accounts m -> (forall a, accounts (k a)) -> accounts (bind m k).
Proof.
  intros Hm Hk w r w' H. apply bind_inv in H.
  destruct H as [(a & w1 & H1 & H2) | (e & H1 & ->)].
  - destruct (Hm _ _ _ H1) as (l1 & T1 & _).
    destruct (Hk a _ _ _ H2) as (l2 & T2 & L2).
    exists (l1 ++ l2). rewrite T2, T1, app_assoc. split; [reflexivity|].
    intros e He. destruct (L2 e He) as (l0 & ->).
    exists (l1 ++ l0). rewrite app_assoc. reflexivity.
  - destruct (Hm _ _ _ H1) as (l1 & T1 & L1). exists l1. split; [assumption|].
    intros c Hc. apply L1. congruence.
Qed.

Lemma accounts_for_each {A} (l : list A) (body : A -> M unit) :
  (forall x, accounts (body x)) -> accounts (for_each l body).
Proof.
  intros Hb. induction l as [|x l IH]; cbn [for_each].
  - apply accounts_ret.
  - apply accounts_bind; auto.
Qed.

Lemma accounts_call env e : accounts (call env e).
Proof.
  intros w r w' H. rewrite call_eq in H. injection H as <- <-.
  exists [e]. split; [reflexivity|].
  intros c Hc. exists [].
  destruct (fails env (ordinal w)); [injection Hc as ->; reflexivity|discriminate].
Qed.

(** A step that raises at most an exception of the script's own and
    issues at most one call. *)
Lemma accounts_step {A} (m : M A) :
  (forall w, (forall e, fst (m w) <> Raise (CallFailed e)) /\
             (trace (snd (m w)) = trace w \/
              exists c, trace (snd (m w)) = trace w ++ [c])) ->
  accounts m.
Proof.
  intros Hm w r w' H. destruct (Hm w) as [Hr Ht]. rewrite H in Hr, Ht.
  cbn [fst snd] in Hr, Ht.
  destruct Ht as [Ht | (c & Ht)].
  - exists []. rewrite app_nil_r. split; [assumption|].
    intros e He. exfalso. exact (Hr e He).
  - exists [c]. split; [assumption|].
    intros e He. exfalso. exact (Hr e He).
Qed.

Ltac accounts_script :=
  open_primitives;
  repeat first
    [ apply accounts_for_each
    | apply accounts_bind
    | apply accounts_ret
    | apply accounts_call
    | match goal with |- forall _, _ => intro end; open_pairs
    | progress split_matches
    | apply accounts_step; intros ?w; unfold raise; cbv beta; split;
      [ intros ?e; split_matches; cbn [fst]; discriminate
      | split_matches; cbn [snd trace log set_session set_cursor set_committed
                              set_vector_indexes];
        first [ left; reflexivity | right; eexists; reflexivity ] ] ].

Section MoreScriptFacts.

Variable env : Env.

Lemma users_loop_accounts l : accounts (for_each l (users_body env)).
Proof. unfold users_body. accounts_script. Qed.

Lemma achievements_loop_accounts l : accounts (for_each l (achievements_body env)).
Proof. unfold achievements_body. accounts_script. Qed.

Lemma careers_loop_accounts l : accounts (for_each l (careers_body env)).
Proof. unfold careers_body. accounts_script. Qed.

Lemma users_loop_calls l :
  emits (fun c => loop_call c = true) (for_each l (users_body env)).
Proof. unfold users_body. emits_script. Qed.

Lemma achievements_loop_calls l :
  emits (fun c => loop_call c = true) (for_each l (achievements_body env)).
Proof. unfold achievements_body. emits_script. Qed.

Lemma careers_loop_calls l :
  emits (fun c => loop_call c = true) (for_each l (careers_body env)).
Proof. unfold careers_body. emits_script. Qed.

Lemma seed_embeddings_calls :
  emits (fun c => sync_call c = true) (seed_embeddings env).
Proof. unfold seed_embeddings. emits_script. Qed.

Lemma ensure_index_calls :
  emits (fun c => pinecone_call c = true) (ensure_index env).
Proof. unfold ensure_index. emits_script. Qed.

End MoreScriptFacts.

(** ** Every run of a seeder, call by call *)

Section BatchTraces.

Variable env : Env.

Lemma batch_trace loop msg w r w' :
  keeps_session loop ->
  emits (fun c => loop_call c = true) loop ->
  accounts loop ->
  batch env loop msg w = (r, w') ->
  BatchTrace msg r (issued w w').
Proof.
  intros Hks Hem Hac H. unfold batch in H.
  run_with get_conn_eq H.
  { injection H as <- <-. erewrite issued_app by reflexivity. constructor. }
  run_with cursor_eq H.
  { injection H as <- <-. erewrite issued_app by traced. constructor. }
  fold (connected w) in H. clear F F0.
  unfold bind at 1 in H.
  destruct (loop (connected w)) as [[[]|e] w1] eqn:Hloop;
    pose proof (Hks _ _ _ Hloop) as Hs;
    destruct (Hem _ _ _ Hloop) as (body & Ht & Hq);
    destruct (Hac _ _ _ Hloop) as (body' & Ht' & Hlast);
    assert (body' = body) by (rewrite Ht in Ht'; eapply app_inv_head; symmetry; exact Ht');
    subst body'; rewrite connected_trace in Ht.
  2:{ injection H as <- <-.
      erewrite issued_app by (rewrite Ht, <- app_assoc; reflexivity).
      apply LoopRaised; [assumption|]. intros c ->. apply Hlast. reflexivity. }
  assert (Hshape : forall post, trace w' = trace w1 ++ post ->
            issued w w' = psycopg2_connect :: conn_cursor :: body ++ post).
  { intros post Hp. apply issued_app. rewrite Hp, Ht, <- !app_assoc. reflexivity. }
  destruct (session w1) as [d|] eqn:Hd;
    [clear Hs | exfalso; apply Hs; [rewrite connected_session; discriminate|reflexivity]].
  run_with commit_eq H.
  { injection H as <- <-. rewrite (Hshape [conn_commit]) by reflexivity.
    apply LoopCompleted; [assumption|constructor]. }
  cbn [session log] in H. rewrite Hd in H.
  run_with close_cursor_eq H.
  { injection H as <- <-. rewrite (Hshape [conn_commit; cur_close]) by traced.
    apply LoopCompleted; [assumption|constructor]. }
  run_with close_conn_eq H.
  { injection H as <- <-. rewrite (Hshape [conn_commit; cur_close; conn_close]) by traced.
    apply LoopCompleted; [assumption|constructor]. }
  unfold py_print in H. injection H as <- <-.
  rewrite (Hshape [conn_commit; cur_close; conn_close; print msg]) by traced.
  apply LoopCompleted; [assumption|constructor].
Qed.

(** A run that got past [commit]: its loop completed and the loop's view
    is what is committed. *)
Lemma batch_after_commit loop msg w r w' :
  emits (fun c => loop_call c = true) loop ->
  accounts loop ->
  batch env loop msg w = (r, w') ->
  r = Ok tt \/ r = Raise (CallFailed cur_close) \/ r = Raise (CallFailed conn_close) ->
  exists w1 d,
    loop (connected w) = (Ok tt, w1) /\ session w1 = Some d /\ committed w' = d.
Proof.
  intros Hem Hac H Hr. unfold batch in H.
  run_with get_conn_eq H.
  { injection H as <- <-. intuition discriminate. }
  run_with cursor_eq H.
  { injection H as <- <-. intuition discriminate. }
  fold (connected w) in H. clear F F0.
  unfold bind at 1 in H.
  destruct (loop (connected w)) as [[[]|e] w1] eqn:Hloop.
  2:{ injection H as <- <-.
      destruct (Hem _ _ _ Hloop) as (body & Ht & Hq).
      destruct (Hac _ _ _ Hloop) as (body' & Ht' & Hlast).
      assert (body' = body)
        by (rewrite Ht in Ht'; eapply app_inv_head; symmetry; exact Ht').
      subst body'. rewrite Forall_forall in Hq.
      assert (Hno : forall c, loop_call c = false -> e <> CallFailed c).
      { intros c Hc ->. destruct (Hlast c eq_refl) as (l0 & ->).
        rewrite Hq in Hc; [discriminate|]. apply in_elt. }
      exfalso. destruct Hr as [Hr | [Hr | Hr]]; [discriminate| |]; injection Hr as ->.
      - exact (Hno cur_close eq_refl eq_refl).
      - exact (Hno conn_close eq_refl eq_refl). }
  run_with commit_eq H.
  { injection H as <- <-. intuition discriminate. }
  cbn [session log] in H.
  destruct (session w1) as [d|] eqn:Hd.
  2:{ injection H as <- <-. intuition discriminate. }
  exists w1, d. split; [reflexivity|]. split; [assumption|].
  run_with close_cursor_eq H; [injection H as <- <-; reflexivity|].
  run_with close_conn_eq H; [injection H as <- <-; reflexivity|].
  unfold py_print in H. injection H as <- <-. reflexivity.
Qed.

End BatchTraces.

(** ** The rows the reference-data seeders add *)

Section SeederRows.

Variable env : Env.

Lemma achievement_insert_rows t ds p w r w1 d :
  execute env (INSERT_achievements t ds p) w = (r, w1) ->
  session w = Some d ->
  exists d1,
    session w1 = Some d1 /\
    db_users d1 = db_users d /\ db_user_profiles d1 = db_user_profiles d /\
    db_career_paths d1 = db_career_paths d /\
    (db_achievements d1 = db_achievements d \/
     db_achievements d1 = db_achievements d ++ [mkAchievement t ds p]).
Proof.
  intros H Hs. rewrite execute_eq in H.
  destruct (fails env (ordinal w)).
  { injection H as <- <-. exists d. cbn [session log]. auto 6. }
  cbn [session log] in H. rewrite Hs in H. injection H as <- <-.
  eexists. split; [reflexivity|]. cbn [run_query fst].
  destruct (has_achievement t (db_achievements d)); cbn; auto 6.
Qed.

Lemma career_insert_rows c ds s ls w r w1 d :
  execute env (INSERT_career_paths c ds s ls) w = (r, w1) ->
  session w = Some d ->
  exists d1,
    session w1 = Some d1 /\
    db_users d1 = db_users d /\ db_user_profiles d1 = db_user_profiles d /\
    db_achievements d1 = db_achievements d /\
    (db_career_paths d1 = db_career_paths d \/
     db_career_paths d1 = db_career_paths d ++ [mkCareerPath c ds s ls]).
Proof.
  intros H Hs. rewrite execute_eq in H.
  destruct (fails env (ordinal w)).
  { injection H as <- <-. exists d. cbn [session log]. auto 6. }
  cbn [session log] in H. rewrite Hs in H. injection H as <- <-.
  eexists. split; [reflexivity|]. cbn [run_query fst].
  destruct (has_career_path c (db_career_paths d)); cbn; auto 6.
Qed.

Lemma achievements_loop_rows l : forall w r w1 d,
  for_each l (achievements_body env) w = (r, w1) ->
  session w = Some d ->
  exists d' extra,
    session w1 = Some d' /\
    db_users d' = db_users d /\ db_user_profiles d' = db_user_profiles d /\
    db_career_paths d' = db_career_paths d /\
    db_achievements d' = db_achievements d ++ extra /\
    Forall (fun a => In a (map achievement_row l)) extra.
Proof.
  induction l as [|[[t ds] p] l IH]; intros w r w1 d H Hs.
  - injection H as <- <-. exists d, []. rewrite app_nil_r. auto 7.
  - cbn [for_each] in H. apply bind_inv in H.
    destruct H as [([] & w0 & Hb & H) | (e & Hb & ->)];
      unfold achievements_body at 1 in Hb;
      destruct (achievement_insert_rows _ _ _ _ _ _ d Hb Hs)
        as (d1 & Hs1 & Hu & Hp & Hc & Ha).
    + destruct (IH _ _ _ _ H Hs1) as (d' & extra & Hs' & Hu' & Hp' & Hc' & Ha' & Hall).
      assert (Hall' : Forall (fun a => In a (map achievement_row ((t, ds, p) :: l))) extra).
      { eapply Forall_impl; [|exact Hall]. intros a Ha0. right. exact Ha0. }
      destruct Ha as [Ha | Ha].
      * exists d', extra. rewrite Ha', Ha. repeat split; try congruence; try exact Hall'.
      * exists d', (mkAchievement t ds p :: extra). rewrite Ha', Ha, <- app_assoc.
        split; [assumption|]. do 3 (split; [congruence|]). split; [reflexivity|].
        constructor; [left; reflexivity|exact Hall'].
    + destruct Ha as [Ha | Ha].
      * exists d1, []. rewrite app_nil_r. repeat split; auto.
      * exists d1, [mkAchievement t ds p]. repeat split; auto.
        constructor; [left; reflexivity|constructor].
Qed.

Lemma careers_loop_rows l : forall w r w1 d,
  for_each l (careers_body env) w = (r, w1) ->
  session w = Some d ->
  exists d' extra,
    session w1 = Some d' /\
    db_users d' = db_users d /\ db_user_profiles d' = db_user_profiles d /\
    db_achievements d' = db_achievements d /\
    db_career_paths d' = db_career_paths d ++ extra /\
    Forall (fun c => In (c_title c) l /\
                     c_description c = ("A career as " ++ c_title c)%string /\
                     60000 <= c_avg_salary c <= 180000 /\
                     c_lifestyle c = lifestyle) extra.
Proof.
  induction l as [|c l IH]; intros w r w1 d H Hs.
  - injection H as <- <-. exists d, []. rewrite app_nil_r. auto 7.
  - cbn [for_each] in H. unfold careers_body at 1 in H.
    unfold randint in H. unfold bind at 1 2 in H. cbv beta iota in H.
    pose proof (randint_range 60000 180000 (entropy env (ordinal w))) as Hrange.
    set (salary := 60000 + entropy env (ordinal w) mod (180000 - 60000 + 1)) in *.
    assert (Hsal : 60000 <= salary <= 180000) by (apply Hrange; lia).
    clearbody salary. clear Hrange.
    destruct (execute env _ _) as [[[]|e] w0] eqn:Hex;
      destruct (career_insert_rows _ _ _ _ _ _ _ d Hex Hs)
        as (d1 & Hs1 & Hu & Hp & Ha & Hc).
    + destruct (IH _ _ _ _ H Hs1) as (d' & extra & Hs' & Hu' & Hp' & Ha' & Hc' & Hall).
      assert (Hall' : Forall (fun x => In (c_title x) (c :: l) /\
                     c_description x = ("A career as " ++ c_title x)%string /\
                     60000 <= c_avg_salary x <= 180000 /\
                     c_lifestyle x = lifestyle) extra).
      { eapply Forall_impl; [|exact Hall]. cbn. intros x (H1 & H2 & H3 & H4). auto. }
      destruct Hc as [Hc | Hc].
      * exists d', extra. rewrite Hc', Hc. repeat split; try congruence; try exact Hall'.
      * exists d', (mkCareerPath c ("A career as " ++ c)%string salary lifestyle :: extra).
        rewrite Hc', Hc, <- app_assoc.
        split; [assumption|]. do 3 (split; [congruence|]). split; [reflexivity|].
        constructor; [|exact Hall']. cbn. auto.
    + injection H as <- <-. destruct Hc as [Hc | Hc].
      * exists d1, []. rewrite app_nil_r. repeat split; auto.
      * exists d1, [mkCareerPath c ("A career as " ++ c)%string salary lifestyle].
        split; [assumption|]. do 3 (split; [assumption|]). split; [assumption|].
        constructor; [|constructor]. cbn. auto.
Qed.

End SeederRows.

(** ** What a seeder's run leaves behind *)

Lemma loop_calls_quiet body :
  Forall (fun c => loop_call c = true) body ->
  filter is_close body = [] /\ printed body = [].
Proof.
  induction 1 as [|c body Hc _ [IH1 IH2]]; [split; reflexivity|].
  destruct c; try discriminate; cbn; auto.
Qed.

Lemma BatchTrace_printed msg r l :
  BatchTrace msg r l ->
  (r = Ok tt -> printed l = [msg]) /\ (r <> Ok tt -> printed l = []).
Proof.
  destruct 1 as [ | | e body Hb _ | r body post Hb Hend].
  - split; [discriminate|reflexivity].
  - split; [discriminate|reflexivity].
  - split; [discriminate|]. intros _. cbn. apply loop_calls_quiet, Hb.
  - destruct (loop_calls_quiet _ Hb) as [_ Hp]. cbn [printed flat_map app].
    fold (printed (body ++ post)). rewrite printed_app, Hp.
    destruct Hend; split; try discriminate; try reflexivity; intros Hr; congruence.
Qed.

Lemma BatchTrace_closes msg e l :
  BatchTrace msg (Raise e) l ->
  e <> CallFailed cur_close -> e <> CallFailed conn_close ->
  filter is_close l = [].
Proof.
  intros H Hcur Hconn.
  inversion H as [ | | e0 body Hb _ | r body post Hb Hend]; subst; try reflexivity.
  - cbn. apply loop_calls_quiet, Hb.
  - destruct (loop_calls_quiet _ Hb) as [Hc _]. cbn [filter is_close].
    rewrite filter_app, Hc.
    inversion Hend; subst; try reflexivity; congruence.
Qed.

Section SeederOutcomes.

Variable env : Env.

Lemma seed_users_trace w r w' :
  seed_users env w = (r, w') -> BatchTrace "✅ Users seeded" r (issued w w').
Proof.
  rewrite seed_users_batch.
  apply batch_trace;
    [apply users_loop_keeps_session|apply users_loop_calls|apply users_loop_accounts].
Qed.

Lemma seed_achievements_trace w r w' :
  seed_achievements env w = (r, w') ->
  BatchTrace "✅ Achievements seeded" r (issued w w').
Proof.
  rewrite seed_achievements_batch.
  apply batch_trace;
    [apply achievements_loop_keeps_session|apply achievements_loop_calls
    |apply achievements_loop_accounts].
Qed.

Lemma seed_careers_trace w r w' :
  seed_careers env w = (r, w') -> BatchTrace "✅ Careers seeded" r (issued w w').
Proof.
  rewrite seed_careers_batch.
  apply batch_trace;
    [apply careers_loop_keeps_session|apply careers_loop_calls
    |apply careers_loop_accounts].
Qed.

(** The committed rows after any run of [seed_users]: the old ones, then
    nothing or the whole batch. *)
Lemma seed_users_rows w r w' :
  seed_users env w = (r, w') ->
  db_achievements (committed w') = db_achievements (committed w) /\
  db_career_paths (committed w') = db_career_paths (committed w) /\
  exists ups : list (User * UserProfile),
    db_users (committed w') = db_users (committed w) ++ map fst ups /\
    db_user_profiles (committed w') = db_user_profiles (committed w) ++ map snd ups /\
    (ups = [] \/ List.length ups = 20%nat).
Proof.
  intros H. rewrite seed_users_batch in H.
  apply batch_inv in H; [|apply users_loop_keeps_committed].
  destruct H as [[Hc _] | (w1 & d & Hloop & Hs & Hc & _)].
  - rewrite Hc. do 2 (split; [reflexivity|]). exists []. cbn. rewrite !app_nil_r. auto.
  - destruct (users_loop_ok env _ _ _ _ Hloop (connected_session w))
      as (ups & Hlen & Hs1 & _ & _).
    rewrite Hs in Hs1. injection Hs1 as ->. rewrite Hc. cbn.
    do 2 (split; [reflexivity|]). exists ups. auto.
Qed.

Lemma seed_achievements_rows w r w' :
  seed_achievements env w = (r, w') ->
  db_users (committed w') = db_users (committed w) /\
  db_user_profiles (committed w') = db_user_profiles (committed w) /\
  db_career_paths (committed w') = db_career_paths (committed w) /\
  exists extra,
    db_achievements (committed w') = db_achievements (committed w) ++ extra /\
    Forall (fun a => In a (map achievement_row achievements)) extra.
Proof.
  intros H. rewrite seed_achievements_batch in H.
  apply batch_inv in H; [|apply achievements_loop_keeps_committed].
  destruct H as [[Hc _] | (w1 & d & Hloop & Hs & Hc & _)].
  - rewrite Hc. do 3 (split; [reflexivity|]). exists []. rewrite app_nil_r. auto.
  - destruct (achievements_loop_rows env _ _ _ _ _ Hloop (connected_session w))
      as (d' & extra & Hs1 & Hu & Hp & Hcp & Ha & Hall).
    rewrite Hs in Hs1. injection Hs1 as <-. subst d.
    do 3 (split; [assumption|]). exists extra. auto.
Qed.

Lemma seed_careers_rows w r w' :
  seed_careers env w = (r, w') ->
  db_users (committed w') = db_users (committed w) /\
  db_user_profiles (committed w') = db_user_profiles (committed w) /\
  db_achievements (committed w') = db_achievements (committed w) /\
  exists extra,
    db_career_paths (committed w') = db_career_paths (committed w) ++ extra /\
    Forall seeded_career extra.
Proof.
  intros H. rewrite seed_careers_batch in H.
  apply batch_inv in H; [|apply careers_loop_keeps_committed].
  destruct H as [[Hc _] | (w1 & d & Hloop & Hs & Hc & _)].
  - rewrite Hc. do 3 (split; [reflexivity|]). exists []. rewrite app_nil_r. auto.
  - destruct (careers_loop_rows env _ _ _ _ _ Hloop (connected_session w))
      as (d' & extra & Hs1 & Hu & Hp & Ha & Hcp & Hall).
    rewrite Hs in Hs1. injection Hs1 as <-. subst d.
    do 3 (split; [assumption|]). exists extra. auto.
Qed.

End SeederOutcomes.

Lemma app_same_length_nil {A} (l extra : list A) (n : nat) :
  List.length (l ++ extra) = n -> List.length l = n -> extra = [].
Proof.
  rewrite length_app. intros H1 H2. destruct extra; [reflexivity|]. cbn in H1. lia.
Qed.

(** * Further properties: the seeders *)

(** X1: whatever its result, a run of a seeder leaves the other tables as
    they were and keeps every committed row of its own table, in place;
    [seed_users] adds to [users] and [user_profiles] either nothing or
    20 rows each, never a part of the batch. *)
Theorem seeders_keep_existing_rows env w r w' :
  (seed_users env w = (r, w') ->
   db_achievements (committed w') = db_achievements (committed w) /\
   db_career_paths (committed w') = db_career_paths (committed w) /\
   exists us ps,
     db_users (committed w') = db_users (committed w) ++ us /\
     db_user_profiles (committed w') = db_user_profiles (committed w) ++ ps /\
     ((us = [] /\ ps = []) \/
      (List.length us = 20%nat /\ List.length ps = 20%nat))) /\
  (seed_achievements env w = (r, w') ->
   db_users (committed w') = db_users (committed w) /\
   db_user_profiles (committed w') = db_user_profiles (committed w) /\
   db_career_paths (committed w') = db_career_paths (committed w) /\
   exists extra,
     db_achievements (committed w') = db_achievements (committed w) ++ extra) /\
  (seed_careers env w = (r, w') ->
   db_users (committed w') = db_users (committed w) /\
   db_user_profiles (committed w') = db_user_profiles (committed w) /\
   db_achievements (committed w') = db_achievements (committed w) /\
   exists extra,
     db_career_paths (committed w') = db_career_paths (committed w) ++ extra).
Proof.
  split; [|split]; intros H.
  - destruct (seed_users_rows env _ _ _ H) as (Ha & Hc & ups & Hu & Hp & Hlen).
    do 2 (split; [assumption|]). exists (map fst ups), (map snd ups).
    do 2 (split; [assumption|]). rewrite !length_map.
    destruct Hlen as [-> | Hlen]; auto.
  - destruct (seed_achievements_rows env _ _ _ H) as (Hu & Hp & Hc & extra & Ha & _).
    do 3 (split; [assumption|]). exists extra. assumption.
  - destruct (seed_careers_rows env _ _ _ H) as (Hu & Hp & Ha & extra & Hc & _).
    do 3 (split; [assumption|]). exists extra. assumption.
Qed.

(** The third user insert of the batch fails (ordinal 20): nothing is added. *)
Lemma seeders_keep_existing_rows_witness :
  exists us ps,
    db_users (committed (snd (seed_users (failing_at 20) three_profiles))) =
      db_users (committed three_profiles) ++ us /\
    db_user_profiles (committed (snd (seed_users (failing_at 20) three_profiles))) =
      db_user_profiles (committed three_profiles) ++ ps /\
    ((us = [] /\ ps = []) \/ (List.length us = 20%nat /\ List.length ps = 20%nat)).
Proof.
  refine (proj2 (proj2 (proj1
    (seeders_keep_existing_rows (failing_at 20) three_profiles
       (fst (seed_users (failing_at 20) three_profiles))
       (snd (seed_users (failing_at 20) three_profiles))) _))).
  vm_compute. reflexivity.
Defined.

(** X2: every row a run of [seed_achievements] adds is built from a tuple
    of its hardcoded list; every row a run of [seed_careers] adds has one
    of the five titles, the description ["A career as <title>"], the
    fixed lifestyle text and a salary between 60000 and 180000. *)
Theorem seeded_rows_come_from_the_lists env w r w' :
  (seed_achievements env w = (r, w') ->
   exists extra,
     db_achievements (committed w') = db_achievements (committed w) ++ extra /\
     Forall (fun a => In a (map achievement_row achievements)) extra) /\
  (seed_careers env w = (r, w') ->
   exists extra,
     db_career_paths (committed w') = db_career_paths (committed w) ++ extra /\
     Forall seeded_career extra).
Proof.
  split; intros H.
  - destruct (seed_achievements_rows env _ _ _ H) as (_ & _ & _ & Hex). exact Hex.
  - destruct (seed_careers_rows env _ _ _ H) as (_ & _ & _ & Hex). exact Hex.
Qed.

(** A store that holds "UX Designer" already: the stored row stays first
    and only seeded rows follow. *)
Lemma seeded_rows_come_from_the_lists_witness :
  exists extra,
    db_career_paths (committed (snd (seed_careers calm one_career_stored))) =
      [mkCareerPath "UX Designer" "Designs interfaces" 95000 "{}"] ++ extra /\
    Forall seeded_career extra.
Proof.
  refine (proj2 (seeded_rows_come_from_the_lists calm one_career_stored
            (fst (seed_careers calm one_career_stored))
            (snd (seed_careers calm one_career_stored))) _).
  vm_compute. reflexivity.
Defined.

(** X3: once a reference-data seeder has run, a second run changes no row
    of its table: the rows stored by the first run stay as they are, the
    salaries drawn by the first run of [seed_careers] included. *)
Theorem reseeding_keeps_rows env w w1 r2 w2 :
  (seed_achievements env w = (Ok tt, w1) ->
   seed_achievements env w1 = (r2, w2) ->
   db_achievements (committed w2) = db_achievements (committed w1)) /\
  (seed_careers env w = (Ok tt, w1) ->
   seed_careers env w1 = (r2, w2) ->
   db_career_paths (committed w2) = db_career_paths (committed w1)).
Proof.
  split; intros H1 H2.
  - destruct (seed_achievements_rows env _ _ _ H2) as (_ & _ & _ & extra & Hex & _).
    apply seed_achievements_titles in H1. destruct H1 as (j1 & Ht1 & Hj1).
    apply seed_achievements_titles in H2. destruct H2 as (j2 & Ht2 & _).
    specialize (Hj1 eq_refl).
    assert (E : achievement_titles (committed w2) = achievement_titles (committed w1)).
    { eapply reseeding_keeps_titles; [exact Ht1| |exact Ht2].
      rewrite Hj1. unfold achievements. reflexivity. }
    apply (f_equal (@List.length string)) in E.
    unfold achievement_titles in E. rewrite !length_map in E.
    rewrite Hex in *. rewrite (app_same_length_nil _ _ _ E eq_refl), app_nil_r.
    reflexivity.
  - destruct (seed_careers_rows env _ _ _ H2) as (_ & _ & _ & extra & Hex & _).
    apply seed_careers_titles in H1. destruct H1 as (j1 & Ht1 & Hj1).
    apply seed_careers_titles in H2. destruct H2 as (j2 & Ht2 & _).
    specialize (Hj1 eq_refl).
    assert (E : career_titles (committed w2) = career_titles (committed w1)).
    { eapply reseeding_keeps_titles; [exact Ht1|exact Hj1|exact Ht2]. }
    apply (f_equal (@List.length string)) in E.
    unfold career_titles in E. rewrite !length_map in E.
    rewrite Hex in *. rewrite (app_same_length_nil _ _ _ E eq_refl), app_nil_r.
    reflexivity.
Qed.

(** Seeding the career paths twice: the second run draws other salaries
    and stores none of them. *)
Lemma reseeding_keeps_rows_witness :
  db_career_paths (committed
    (snd (seed_careers calm (snd (seed_careers calm fresh_world))))) =
  db_career_paths (committed (snd (seed_careers calm fresh_world))).
Proof.
  refine (proj2 (reseeding_keeps_rows calm fresh_world
            (snd (seed_careers calm fresh_world))
            (fst (seed_careers calm (snd (seed_careers calm fresh_world))))
            (snd (seed_careers calm (snd (seed_careers calm fresh_world))))) _ _).
  - vm_compute. reflexivity.
  - vm_compute. reflexivity.
Defined.

Lemma closes_synced done : filter is_close (synced done) = [].
Proof. induction done as [|re done IH]; cbn; [reflexivity|exact IH]. Qed.

Lemma SyncRun_closes rows e l :
  SyncRun rows (Raise e) l ->
  e <> CallFailed cur_close -> e <> CallFailed conn_close ->
  filter is_close l = [].
Proof.
  intros H Hcur Hconn.
  inversion H as [pre c post Hq | embs tail e0 Hend | embs r post Hlen Hcl]; subst.
  - unfold query_calls in Hq.
    destruct pre as [|a [|b [|c' [|d pre]]]]; inversion Hq; subst; try reflexivity.
    destruct pre; discriminate.
  - rewrite !filter_app, closes_synced.
    inversion Hend; subst; reflexivity.
  - inversion Hcl; subst; congruence.
Qed.

(** X4: no script closes anything on an error path.  When a run of
    [seed_users], [seed_achievements], [seed_careers] or [seed_embeddings]
    ends with an exception other than that of [cur.close()] or
    [conn.close()] itself, neither close was called: the cursor and the
    connection are left to the interpreter. *)
Theorem scripts_close_only_at_end :
  closes_only_at_end seed_users /\
  closes_only_at_end seed_achievements /\
  closes_only_at_end seed_careers /\
  closes_only_at_end seed_embeddings.
Proof.
  repeat apply conj; intros env w e w' H Hcur Hconn.
  - eapply BatchTrace_closes; [apply (seed_users_trace env), H|assumption|assumption].
  - eapply BatchTrace_closes; [apply (seed_achievements_trace env), H|assumption|assumption].
  - eapply BatchTrace_closes; [apply (seed_careers_trace env), H|assumption|assumption].
  - apply seed_embeddings_run in H. destruct H as (_ & _ & H).
    eapply SyncRun_closes; eassumption.
Qed.

(** The second embedding call fails: no close among the calls. *)
Lemma scripts_close_only_at_end_witness :
  filter is_close
    (issued three_profiles (snd (seed_embeddings (failing_at 6) three_profiles))) = [].
Proof.
  refine (proj2 (proj2 (proj2 scripts_close_only_at_end)) (failing_at 6) three_profiles
            (CallFailed (openai_Embedding_create "Draws things." "text-embedding-ada-002"))
            (snd (seed_embeddings (failing_at 6) three_profiles)) _ _ _).
  - vm_compute. reflexivity.
  - discriminate.
  - discriminate.
Defined.

(** X5: a seeder prints its message exactly when its run succeeds, and
    then once; a failed run prints nothing. *)
Theorem seeders_report_only_success :
  reports_only_success seed_users "✅ Users seeded" /\
  reports_only_success seed_achievements "✅ Achievements seeded" /\
  reports_only_success seed_careers "✅ Careers seeded".
Proof.
  repeat apply conj; intros env w r w' H.
  - exact (BatchTrace_printed _ _ _ (seed_users_trace env _ _ _ H)).
  - exact (BatchTrace_printed _ _ _ (seed_achievements_trace env _ _ _ H)).
  - exact (BatchTrace_printed _ _ _ (seed_careers_trace env _ _ _ H)).
Qed.

(** [conn.close()] fails after the commit (ordinal 6): no message. *)
Lemma seeders_report_only_success_witness :
  printed (issued fresh_world (snd (seed_achievements (failing_at 6) fresh_world))) = [] /\
  printed (issued fresh_world (snd (seed_achievements calm fresh_world))) =
    ["✅ Achievements seeded"].
Proof.
  split.
  - refine (proj2 (proj1 (proj2 seeders_report_only_success) (failing_at 6) fresh_world
              (fst (seed_achievements (failing_at 6) fresh_world))
              (snd (seed_achievements (failing_at 6) fresh_world)) _) _).
    + vm_compute. reflexivity.
    + vm_compute. discriminate.
  - refine (proj1 (proj1 (proj2 seeders_report_only_success) calm fresh_world
              (fst (seed_achievements calm fresh_world))
              (snd (seed_achievements calm fresh_world)) _) _).
    + vm_compute. reflexivity.
    + vm_compute. reflexivity.
Defined.

(** X6: when [cur.close()] or [conn.close()] raises in a seeder, the run
    fails although the commit went through: the whole batch is in the
    store (20 users with their profiles; every seeded title). *)
Theorem close_failure_leaves_batch_committed env w r w' :
  r = Raise (CallFailed cur_close) \/ r = Raise (CallFailed conn_close) ->
  (seed_users env w = (r, w') ->
   exists ups : list (User * UserProfile),
     List.length ups = 20%nat /\
     db_users (committed w') = db_users (committed w) ++ map fst ups /\
     db_user_profiles (committed w') = db_user_profiles (committed w) ++ map snd ups /\
     Forall (fun up => p_user_id (snd up) = u_id (fst up)) ups) /\
  (seed_achievements env w = (r, w') ->
   forall t, In t achievement_seed_titles -> In t (achievement_titles (committed w'))) /\
  (seed_careers env w = (r, w') ->
   forall t, In t careers -> In t (career_titles (committed w'))).
Proof.
  intros Hr.
  assert (Hr' : r = Ok tt \/ r = Raise (CallFailed cur_close) \/
                r = Raise (CallFailed conn_close)) by tauto.
  split; [|split]; intros H.
  - rewrite seed_users_batch in H.
    destruct (batch_after_commit env _ _ _ _ _ (users_loop_calls env _)
                (users_loop_accounts env _) H Hr') as (w1 & d & Hloop & Hs & Hc).
    destruct (users_loop_ok env _ _ _ _ Hloop (connected_session w))
      as (ups & Hlen & Hs1 & Hall & _).
    rewrite Hs in Hs1. injection Hs1 as ->. exists ups. rewrite Hc. cbn.
    split; [exact Hlen|]. do 2 (split; [reflexivity|]).
    eapply Forall_impl; [|exact Hall]. cbn. tauto.
  - rewrite seed_achievements_batch in H.
    destruct (batch_after_commit env _ _ _ _ _ (achievements_loop_calls env _)
                (achievements_loop_accounts env _) H Hr') as (w1 & d & Hloop & Hs & Hc).
    destruct (achievements_loop env _ _ _ _ _ Hloop (connected_session w))
      as (d' & j & Hs1 & _ & Hti & Hok).
    rewrite Hs in Hs1. injection Hs1 as <-. destruct (Hok eq_refl) as [-> _].
    intros t Ht. rewrite Hc, Hti, In_add_titles. right.
    rewrite <- (length_map (fun x => fst (fst x)) achievements), firstn_all. exact Ht.
  - rewrite seed_careers_batch in H.
    destruct (batch_after_commit env _ _ _ _ _ (careers_loop_calls env _)
                (careers_loop_accounts env _) H Hr') as (w1 & d & Hloop & Hs & Hc).
    destruct (careers_loop env _ _ _ _ _ Hloop (connected_session w))
      as (d' & j & Hs1 & _ & Hti & Hok).
    rewrite Hs in Hs1. injection Hs1 as <-. destruct (Hok eq_refl) as [-> _].
    intros t Ht. rewrite Hc, Hti, In_add_titles. right. rewrite firstn_all. exact Ht.
Qed.

(** [cur.close()] fails (ordinal 5): both achievements are stored. *)
Lemma close_failure_leaves_batch_committed_witness :
  fst (seed_achievements (failing_at 5) fresh_world) = Raise (CallFailed cur_close) /\
  forall t, In t achievement_seed_titles ->
    In t (achievement_titles (committed (snd (seed_achievements (failing_at 5) fresh_world)))).
Proof.
  split; [vm_compute; reflexivity|].
  refine (proj1 (proj2 (close_failure_leaves_batch_committed (failing_at 5) fresh_world
            (fst (seed_achievements (failing_at 5) fresh_world))
            (snd (seed_achievements (failing_at 5) fresh_world)) _)) _).
  - left. vm_compute. reflexivity.
  - vm_compute. reflexivity.
Defined.

(** X7: the profile seeder is not idempotent: two successful runs in
    sequence leave 40 more users and 40 more profiles than before the
    first, the rows of the first run before those of the second. *)
Theorem seed_users_twice_adds_forty env w w1 w2 :
  seed_users env w = (Ok tt, w1) ->
  seed_users env w1 = (Ok tt, w2) ->
  exists us1 us2 ps1 ps2,
    List.length us1 = 20%nat /\ List.length us2 = 20%nat /\
    List.length ps1 = 20%nat /\ List.length ps2 = 20%nat /\
    db_users (committed w2) = db_users (committed w) ++ us1 ++ us2 /\
    db_user_profiles (committed w2) = db_user_profiles (committed w) ++ ps1 ++ ps2 /\
    db_users (committed w1) = db_users (committed w) ++ us1 /\
    db_user_profiles (committed w1) = db_user_profiles (committed w) ++ ps1.
Proof.
  intros H1 H2.
  destruct (seed_users_ok env _ _ H1) as (ups1 & L1 & U1 & P1 & _).
  destruct (seed_users_ok env _ _ H2) as (ups2 & L2 & U2 & P2 & _).
  exists (map fst ups1), (map fst ups2), (map snd ups1), (map snd ups2).
  rewrite !length_map. do 4 (split; [assumption|]).
  rewrite U2, P2, U1, P1, <- !app_assoc. auto.
Qed.

Lemma seed_users_twice_adds_forty_witness :
  List.length (db_users (committed
    (snd (seed_users calm (snd (seed_users calm fresh_world)))))) = 40%nat.
Proof.
  destruct (seed_users_twice_adds_forty calm fresh_world
              (snd (seed_users calm fresh_world))
              (snd (seed_users calm (snd (seed_users calm fresh_world)))))
    as (us1 & us2 & ps1 & ps2 & L1 & L2 & _ & _ & U & _).
  - vm_compute. reflexivity.
  - vm_compute. reflexivity.
  - rewrite U, !length_app, L1, L2. reflexivity.
Defined.

(** ** More on the runs of [seed_embeddings] *)

Lemma to_int_not_nil z : Z.to_int z <> Decimal.Pos Decimal.Nil /\
                         Z.to_int z <> Decimal.Neg Decimal.Nil.
Proof.
  destruct z as [|p|p]; cbn; split; try discriminate;
    intros H; injection H as H; exact (DecimalPos.Unsigned.to_uint_nonnil p H).
Qed.

(** [str] on integers can be read back, so it is injective. *)
Lemma str_inj z z' : str z = str z' -> z = z'.
Proof.
  unfold str. intros H.
  apply DecimalZ.to_int_inj.
  destruct (to_int_not_nil z) as [Hp Hn], (to_int_not_nil z') as [Hp' Hn'].
  pose proof (NilZero.isi _ Hp Hn) as E. rewrite H, (NilZero.isi _ Hp' Hn') in E.
  injection E as E. symmetry. exact E.
Qed.

Section SyncLoops.

Variable env : Env.

(** The run of [seed_embeddings] around its loop. *)
Lemma seed_embeddings_loop w r w' :
  seed_embeddings env w = (r, w') ->
  (exists e, In e query_calls /\ r = Raise (CallFailed e)) \/
  exists w0 rl w1,
    trace w0 = trace w ++ query_calls /\
    for_each (profile_rows (committed w)) (sync_body env) w0 = (rl, w1) /\
    ((exists e, rl = Raise e /\ r = Raise e /\ w' = w1) \/
     (rl = Ok tt /\ exists post,
        Closing r post /\
        trace w' = trace w1 ++ print "✅ Embeddings synced" :: post)).
Proof.
  unfold seed_embeddings. intros H.
  run_with get_conn_eq H.
  { injection H as <- <-. left. eexists. split; [|reflexivity]. cbn. auto. }
  run_with cursor_eq H.
  { injection H as <- <-. left. eexists. split; [|reflexivity]. cbn. auto. }
  run_with execute_eq H.
  { injection H as <- <-. left. eexists. split; [|reflexivity]. cbn. auto. }
  cbn [session set_cursor set_session log] in H.
  run_with fetchall_eq H.
  { injection H as <- <-. left. eexists. split; [|reflexivity]. cbn. auto. }
  cbn [session cursor set_cursor set_session log run_query snd fst] in H.
  clear F F0 F1 F2.
  change (fun '(uid, text) =>
            emb <- Embedding_create env text "text-embedding-ada-002";;
            upsert env index [(str uid, emb)]) with (sync_body env) in H.
  fold (profile_rows (committed w)) in H.
  right. unfold bind at 1 in H.
  match type of H with
  | context [for_each _ _ ?w0] => exists w0
  end.
  destruct (for_each _ (sync_body env) _) as [[[]|e] w1] eqn:Hloop.
  - exists (Ok tt), w1. split; [traced|]. split; [reflexivity|]. right.
    split; [reflexivity|].
    unfold py_print in H. unfold bind at 1 in H. cbv beta iota in H.
    run_with close_cursor_eq H.
    { injection H as <- <-. eexists. split; [constructor|]. traced. }
    rewrite close_conn_eq in H.
    destruct (fails env _) in H; injection H as <- <-;
      (eexists; split; [constructor|traced]).
  - injection H as <- <-. exists (Raise e), w1. split; [traced|].
    split; [reflexivity|]. left. eauto.
Qed.

(** A completed iteration sends the first vector of the service's answer
    to the row's text. *)
Lemma sync_body_ok row w w1 :
  sync_body env row w = (Ok tt, w1) ->
  exists d ds,
    data (embedding_service env (ordinal w) (snd row) "text-embedding-ada-002") = d :: ds /\
    trace w1 = trace w ++ sync_calls row (embedding d).
Proof.
  destruct row as [uid text]. intros H.
  unfold sync_body, Embedding_create, upsert, bind, ret, raise in H.
  rewrite call_eq in H. destruct (fails env (ordinal w)); [discriminate|].
  cbn [snd]. destruct (data _) as [|d ds] eqn:Hd; [discriminate|].
  rewrite call_eq in H. destruct (fails env (ordinal (log _ w))); [discriminate|].
  injection H as <-. exists d, ds. split; [reflexivity|]. apply trace_log2.
Qed.

Lemma sync_loop_ok rows : forall w w1,
  for_each rows (sync_body env) w = (Ok tt, w1) ->
  exists seg,
    trace w1 = trace w ++ seg /\
    Forall2 (upsert_of_row env) rows (filter is_upsert seg).
Proof.
  induction rows as [|row rows IH]; intros w w1 H.
  - injection H as <-. exists []. rewrite app_nil_r. split; [reflexivity|constructor].
  - cbn [for_each] in H. apply bind_inv in H.
    destruct H as [([] & w0 & Hb & H) | (e & _ & He)]; [|discriminate].
    apply sync_body_ok in Hb. destruct Hb as (d & ds & Hd & Ht0).
    destruct (IH _ _ H) as (seg & Ht & Hall).
    exists (sync_calls row (embedding d) ++ seg).
    split; [rewrite Ht, Ht0, <- app_assoc; reflexivity|].
    cbn. constructor; [|exact Hall]. exists (ordinal w), d, ds. auto.
Qed.


End SyncLoops.


Lemma SyncRun_upsert_failed rows name vs l :
  SyncRun rows (Raise (CallFailed (index_upsert name vs))) l ->
  exists k row embs emb,
    List.length embs = k /\ nth_error rows k = Some row /\
    name = "career-mirror" /\ vs = [(str (fst row), emb)] /\
    l = query_calls ++ synced (combine (firstn k rows) embs) ++ sync_calls row emb.
Proof.
  intros H. inversion H as [pre e post Hq | embs tail e Hend | embs r post Hlen Hcl]; subst.
  - apply query_prefix_no_sync in Hq. destruct Hq as (_ & _ & _ & Hin).
    cbn in Hin. intuition discriminate.
  - inversion Hend as [| k row Hn | k row Hn | k row emb Hn]; subst.
    exists (List.length embs), row, embs, emb. auto 6.
  - inversion Hcl.
Qed.

Lemma SyncRun_printed rows r l :
  SyncRun rows r l ->
  (printed l = ["✅ Embeddings synced"] /\
   (r = Ok tt \/ r = Raise (CallFailed cur_close) \/ r = Raise (CallFailed conn_close)) /\
   upserted_keys l = map (fun row => str (fst row)) rows /\
   embedded_texts l = map snd rows) \/
  (printed l = [] /\ r <> Ok tt /\
   r <> Raise (CallFailed cur_close) /\ r <> Raise (CallFailed conn_close)).
Proof.
  destruct 1 as [pre e post Hq | embs tail e Hend | embs r post Hlen Hcl].
  - right. destruct (query_prefix_no_sync _ _ _ Hq) as (_ & _ & Hp & Hin).
    split; [assumption|]. cbn in Hin. intuition (subst; discriminate).
  - right. rewrite !printed_app, printed_synced.
    inversion Hend; subst; cbn; repeat split; discriminate.
  - left. rewrite !printed_app, printed_synced, !upserted_keys_app, !embedded_texts_app,
      upserted_keys_synced, embedded_texts_synced.
    rewrite (map_fst_combine (fun row => str (fst row))), (map_fst_combine snd) by auto.
    destruct Hcl; cbn; rewrite ?app_nil_r; auto 6.
Qed.

(** * Further properties: the embedding sync *)

(** X8: the sync only reads the relational store.  In every run the
    committed rows and the vector store's index list are as before,
    [commit] is never called and the only statement executed is the
    query on [user_profiles]. *)
Theorem sync_only_reads_the_store env w r w' :
  seed_embeddings env w = (r, w') ->
  committed w' = committed w /\
  vector_indexes w' = vector_indexes w /\
  filter is_commit (issued w w') = [] /\
  forall q, In q (executed (issued w w')) -> q = SELECT_id_profile_text.
Proof.
  intros H.
  destruct (seed_embeddings_calls env _ _ _ H) as (l & Ht & Hl).
  apply seed_embeddings_run in H. destruct H as (Hc & Hv & _).
  rewrite (issued_app _ _ _ Ht). rewrite Forall_forall in Hl.
  do 2 (split; [assumption|]). split.
  - apply Forall_filter_nil, Forall_forall. intros c Hc'.
    specialize (Hl _ Hc'). destruct c; try reflexivity; discriminate.
  - intros q Hq. apply In_executed in Hq. specialize (Hl _ Hq).
    destruct q; try discriminate. reflexivity.
Qed.

Lemma sync_only_reads_the_store_witness :
  committed (snd (seed_embeddings calm three_profiles)) = committed three_profiles /\
  executed (issued three_profiles (snd (seed_embeddings calm three_profiles))) =
    [SELECT_id_profile_text].
Proof.
  split.
  - refine (proj1 (sync_only_reads_the_store calm three_profiles
              (fst (seed_embeddings calm three_profiles))
              (snd (seed_embeddings calm three_profiles)) _)).
    vm_compute. reflexivity.
  - vm_compute. reflexivity.
Defined.

(** X9: in a successful run the upserts are, row by row in the order of
    the query's answer, one call on the index ["career-mirror"] carrying
    one pair: the key [str] of the row's [id] and the first vector of an
    answer the embedding service gave for that row's text under the model
    ["text-embedding-ada-002"]. *)
Theorem sync_upserts_the_vector_of_each_row env w w' :
  seed_embeddings env w = (Ok tt, w') ->
  Forall2 (upsert_of_row env) (profile_rows (committed w))
    (filter is_upsert (issued w w')).
Proof.
  intros H. apply seed_embeddings_loop in H.
  destruct H as [(e & _ & He) | (w0 & rl & w1 & Ht0 & Hloop & Hrest)]; [discriminate|].
  destruct Hrest as [(e & _ & He & _) | (-> & post & Hcl & Ht)]; [discriminate|].
  destruct (sync_loop_ok env _ _ _ Hloop) as (seg & Ht1 & Hall).
  rewrite (issued_app w w' (query_calls ++ seg ++
             print "✅ Embeddings synced" :: post))
    by (rewrite Ht, Ht1, Ht0, <- !app_assoc; reflexivity).
  rewrite !filter_app. cbn [filter query_calls is_upsert app].
  destruct (Closing_no_sync _ _ Hcl) as (_ & _ & _ & ->).
  rewrite app_nil_r. exact Hall.
Qed.

Lemma sync_upserts_the_vector_of_each_row_witness :
  Forall2 (upsert_of_row calm) (profile_rows (committed three_profiles))
    (filter is_upsert
       (issued three_profiles (snd (seed_embeddings calm three_profiles)))).
Proof.
  apply (sync_upserts_the_vector_of_each_row calm three_profiles
           (snd (seed_embeddings calm three_profiles))).
  vm_compute. reflexivity.
Defined.

(** X10: when the rows of [user_profiles] have pairwise distinct [id]s, a
    successful run upserts under pairwise distinct keys, one per row: no
    vector overwrites another ([str] is injective on integers). *)
Theorem sync_keys_do_not_collide env w w' :
  seed_embeddings env w = (Ok tt, w') ->
  NoDup (map p_id (db_user_profiles (committed w))) ->
  NoDup (upserted_keys (issued w w')) /\
  List.length (upserted_keys (issued w w')) =
    List.length (db_user_profiles (committed w)).
Proof.
  intros H Hnd. apply seed_embeddings_run in H. destruct H as (_ & _ & H).
  apply SyncRun_printed in H.
  destruct H as [(_ & _ & Hk & _) | (_ & Hr & _)]; [|congruence].
  rewrite Hk. unfold profile_rows. rewrite map_map. cbn [fst].
  rewrite length_map. split; [|reflexivity].
  rewrite <- (map_map p_id str).
  apply Finite.Injective_map_NoDup; [|assumption].
  intros z z'. apply str_inj.
Qed.

Lemma sync_keys_do_not_collide_witness :
  NoDup (upserted_keys
           (issued three_profiles (snd (seed_embeddings calm three_profiles)))) /\
  List.length (upserted_keys
           (issued three_profiles (snd (seed_embeddings calm three_profiles)))) = 3%nat.
Proof.
  apply (sync_keys_do_not_collide calm three_profiles
           (snd (seed_embeddings calm three_profiles))).
  - vm_compute. reflexivity.
  - cbn. repeat constructor; cbn; intuition discriminate.
Defined.



(** X12: when an upsert fails, the run's result is that call's exception
    and the call is the last of the run.  The failing row had already been
    embedded; the keys sent are those of the rows up to and including it;
    later rows are neither embedded nor upserted, and nothing is printed. *)
Theorem upsert_failure_aborts_sync env w r w' i name vs :
  seed_embeddings env w = (r, w') ->
  nth_error (issued w w') i = Some (index_upsert name vs) ->
  fails env (ordinal w + i) = true ->
  r = Raise (CallFailed (index_upsert name vs)) /\
  S i = List.length (issued w w') /\
  exists k,
    (k < List.length (profile_rows (committed w)))%nat /\
    upserted_keys (issued w w') =
      map (fun row => str (fst row)) (firstn (S k) (profile_rows (committed w))) /\
    embedded_texts (issued w w') =
      map snd (firstn (S k) (profile_rows (committed w))) /\
    printed (issued w w') = [].
Proof.
  intros H Hn Hf.
  destruct (seed_embeddings_propagates env _ _ _ H) as (l & Ht & Hp).
  rewrite (issued_app _ _ _ Ht) in *.
  destruct (Hp i _ Hn eq_refl Hf) as [Hlast ->].
  split; [reflexivity|]. split; [assumption|].
  apply seed_embeddings_run in H. destruct H as (_ & _ & H).
  rewrite (issued_app _ _ _ Ht) in H.
  apply SyncRun_upsert_failed in H.
  destruct H as (k & row & embs & emb & Hlen & Hrow & -> & -> & ->).
  exists k. split; [apply nth_error_Some; congruence|].
  assert (Hk : List.length (firstn k (profile_rows (committed w))) = List.length embs).
  { rewrite Hlen. eapply nth_error_firstn_length, Hrow. }
  rewrite (firstn_succ_nth _ _ _ Hrow), !map_app.
  split; [|split].
  - rewrite !upserted_keys_app, upserted_keys_synced.
    rewrite (map_fst_combine (fun row => str (fst row))) by assumption. reflexivity.
  - rewrite !embedded_texts_app, embedded_texts_synced.
    rewrite (map_fst_combine snd) by assumption. reflexivity.
  - rewrite !printed_app, printed_synced. reflexivity.
Qed.

(** Three stored profiles, the second upsert (ordinal 7) fails: the run
    ends with its exception, after the second embedding call. *)
Lemma upsert_failure_aborts_sync_witness :
  fst (seed_embeddings (failing_at 7) three_profiles) =
    Raise (CallFailed (index_upsert "career-mirror" [("2", [QArith_base.Qmake 1 2])])) /\
  8%nat = List.length
    (issued three_profiles (snd (seed_embeddings (failing_at 7) three_profiles))).
Proof.
  destruct (upsert_failure_aborts_sync (failing_at 7) three_profiles
              (fst (seed_embeddings (failing_at 7) three_profiles))
              (snd (seed_embeddings (failing_at 7) three_profiles))
              7%nat "career-mirror"
              [("2", [QArith_base.Qmake 1 2])])
    as (Hr & Hlast & _).
  - vm_compute. reflexivity.
  - vm_compute. reflexivity.
  - vm_compute. reflexivity.
  - split; [exact Hr|exact Hlast].
Defined.

(** X13: the sync prints its message before it closes anything, so the
    message is printed exactly when the loop went through every row, also
    when a close then makes the run fail; whenever it is printed, every
    row was embedded and upserted, in order. *)
Theorem sync_message_means_all_rows_synced env w r w' :
  seed_embeddings env w = (r, w') ->
  (In "✅ Embeddings synced" (printed (issued w w')) <->
   r = Ok tt \/ r = Raise (CallFailed cur_close) \/ r = Raise (CallFailed conn_close)) /\
  (In "✅ Embeddings synced" (printed (issued w w')) ->
   upserted_keys (issued w w') =
     map (fun p => str (p_id p)) (db_user_profiles (committed w)) /\
   embedded_texts (issued w w') =
     map p_profile_text (db_user_profiles (committed w))).
Proof.
  intros H. apply seed_embeddings_run in H. destruct H as (_ & _ & H).
  apply SyncRun_printed in H. unfold profile_rows in H. rewrite !map_map in H. cbn in H.
  destruct H as [(Hp & Hr & Hk & He) | (Hp & Hr1 & Hr2 & Hr3)]; rewrite Hp.
  - split; [|auto]. split; [auto|]. intros _. left. reflexivity.
  - split.
    + split; [intros []|]. intros [Hr | [Hr | Hr]]; contradiction.
    + intros [].
Qed.

(** [cur.close()] fails (ordinal 11) after three rows were synced: the
    run fails with the message printed. *)
Lemma sync_message_means_all_rows_synced_witness :
  fst (seed_embeddings (failing_at 11) three_profiles) = Raise (CallFailed cur_close) /\
  In "✅ Embeddings synced"
    (printed (issued three_profiles (snd (seed_embeddings (failing_at 11) three_profiles)))).
Proof.
  split; [vm_compute; reflexivity|].
  refine (proj2 (proj1 (sync_message_means_all_rows_synced (failing_at 11) three_profiles
            (fst (seed_embeddings (failing_at 11) three_profiles))
            (snd (seed_embeddings (failing_at 11) three_profiles)) _)) _).
  - vm_compute. reflexivity.
  - right. left. vm_compute. reflexivity.
Defined.

(** X14: the sync keeps no record of what it has done: a second
    successful run right after a successful one embeds every row again
    and upserts under the same keys. *)
Theorem sync_rerun_repeats_every_row env w w1 w2 :
  seed_embeddings env w = (Ok tt, w1) ->
  seed_embeddings env w1 = (Ok tt, w2) ->
  embedded_texts (issued w1 w2) = embedded_texts (issued w w1) /\
  upserted_keys (issued w1 w2) = upserted_keys (issued w w1) /\
  List.length (filter is_embedding_call (issued w1 w2)) =
    List.length (db_user_profiles (committed w)).
Proof.
  intros H1 H2.
  pose proof (seed_embeddings_run env _ _ _ H1) as (Hc & _ & R1).
  pose proof (seed_embeddings_run env _ _ _ H2) as (_ & _ & R2).
  rewrite Hc in R2.
  apply SyncRun_printed in R1. apply SyncRun_printed in R2.
  destruct R1 as [(_ & _ & Hk1 & He1) | (_ & Hr & _)]; [|congruence].
  destruct R2 as [(_ & _ & Hk2 & He2) | (_ & Hr & _)]; [|congruence].
  split; [congruence|]. split; [congruence|].
  pose proof (seed_embeddings_run env _ _ _ H2) as (_ & _ & R).
  apply SyncRun_Ok in R. destruct R as (embs & Hlen & ->).
  rewrite Hc in Hlen. unfold profile_rows in Hlen. rewrite length_map in Hlen.
  rewrite !filter_app, !length_app, embedding_calls_synced.
  rewrite length_combine, Hlen, Hc. unfold profile_rows. rewrite length_map, Nat.min_id.
  cbn. lia.
Qed.

Lemma sync_rerun_repeats_every_row_witness :
  upserted_keys
    (issued (snd (seed_embeddings calm three_profiles))
       (snd (seed_embeddings calm (snd (seed_embeddings calm three_profiles))))) =
  upserted_keys (issued three_profiles (snd (seed_embeddings calm three_profiles))).
Proof.
  refine (proj1 (proj2 (sync_rerun_repeats_every_row calm three_profiles
            (snd (seed_embeddings calm three_profiles))
            (snd (seed_embeddings calm (snd (seed_embeddings calm three_profiles))))
            _ _))).
  - vm_compute. reflexivity.
  - vm_compute. reflexivity.
Defined.

(** ** The index ensure *)

Lemma ensure_index_ok env w w' :
  ensure_index env w = (Ok tt, w') ->
  (In index_name (vector_indexes w) /\ vector_indexes w' = vector_indexes w) \/
  (~ In index_name (vector_indexes w) /\
   vector_indexes w' = vector_indexes w ++ [index_name]).
Proof.
  intros H. unfold ensure_index in H.
  unfold bind at 1 in H. rewrite call_eq in H.
  destruct (fails env (ordinal w)); [discriminate|].
  run_with list_indexes_eq H; [discriminate|].
  cbn [vector_indexes log] in H.
  destruct (existsb (String.eqb index_name) (vector_indexes w)) eqn:E; cbn [negb] in H.
  - apply existsb_eqb_In in E. injection H as <-. left. auto.
  - assert (Hout : ~ In index_name (vector_indexes w)).
    { intros Hin. apply existsb_eqb_In in Hin. congruence. }
    rewrite create_index_eq in H.
    destruct (fails env _) in H; [discriminate|]. injection H as <-. right. auto.
Qed.

(** X15: after a successful index ensure the vector store lists
    ["career-mirror"] and every name it listed before, and a further
    ensure calls [create_index] no more; when the name was listed already
    the list is unchanged. *)
Theorem ensure_index_establishes_the_index env w w' :
  ensure_index env w = (Ok tt, w') ->
  In index_name (vector_indexes w') /\
  (forall name, In name (vector_indexes w) -> In name (vector_indexes w')) /\
  (In index_name (vector_indexes w) -> vector_indexes w' = vector_indexes w) /\
  (forall r2 w2,
     ensure_index env w' = (r2, w2) ->
     filter is_create_index (issued w' w2) = []).
Proof.
  intros H.
  assert (Hin : In index_name (vector_indexes w')).
  { destruct (ensure_index_ok _ _ _ H) as [[Hi ->] | [_ ->]]; [assumption|].
    apply in_elt. }
  split; [assumption|]. split; [|split].
  - intros name Hn.
    destruct (ensure_index_ok _ _ _ H) as [[_ ->] | [_ ->]]; [assumption|].
    apply in_or_app. left. assumption.
  - intros Hi. destruct (ensure_index_ok _ _ _ H) as [[_ ->] | [Ho _]];
      [reflexivity|contradiction].
  - intros r2 w2 H2. apply ensure_index_run in H2.
    destruct H2 as (l & Ht & Hnone & _). rewrite (issued_app _ _ _ Ht). auto.
Qed.

Lemma ensure_index_establishes_the_index_witness :
  In index_name (vector_indexes (snd (ensure_index calm fresh_world))) /\
  filter is_create_index
    (issued (snd (ensure_index calm fresh_world))
       (snd (ensure_index calm (snd (ensure_index calm fresh_world))))) = [].
Proof.
  destruct (ensure_index_establishes_the_index calm fresh_world
              (snd (ensure_index calm fresh_world))) as (Hin & _ & _ & Hagain).
  - vm_compute. reflexivity.
  - split; [exact Hin|]. eapply Hagain. apply surjective_pairing.
Defined.

(** X16: the script reaches the relational store, the embedding service
    and the upserts only behind the index ensure: a run that issues any
    call other than [pinecone.init], [list_indexes] and [create_index]
    ends with ["career-mirror"] listed by the vector store. *)
Theorem sync_runs_only_behind_the_index env w r w' c :
  load_embeddings_main env w = (r, w') ->
  In c (issued w w') -> pinecone_call c = false ->
  In index_name (vector_indexes w').
Proof.
  intros H Hc Hp. unfold load_embeddings_main in H. apply bind_inv in H.
  destruct H as [([] & w1 & He & Hs) | (e & He & ->)].
  - rewrite (seed_embeddings_keeps_indexes env _ _ _ Hs).
    exact (proj1 (ensure_index_establishes_the_index _ _ _ He)).
  - exfalso. destruct (ensure_index_calls env _ _ _ He) as (l & Ht & Hl).
    rewrite (issued_app _ _ _ Ht) in Hc. rewrite Forall_forall in Hl.
    rewrite (Hl _ Hc) in Hp. discriminate.
Qed.

Lemma sync_runs_only_behind_the_index_witness :
  In index_name (vector_indexes (snd (load_embeddings_main calm fresh_world))).
Proof.
  refine (sync_runs_only_behind_the_index calm fresh_world
            (fst (load_embeddings_main calm fresh_world))
            (snd (load_embeddings_main calm fresh_world)) psycopg2_connect _ _ _).
  - vm_compute. reflexivity.
  - vm_compute. tauto.
  - reflexivity.
Defined.

(** * Further properties: failure and uniqueness in the seeders *)

Lemma BatchRun_clean msg w w' e :
  BatchRun msg w w' (Raise e) ->
  e <> CallFailed cur_close -> e <> CallFailed conn_close ->
  committed w' = committed w.
Proof.
  intros H Hcur Hconn.
  inversion H as [ | e0 Hc _ | Hc _ | e0 post Hcl _]; subst; try assumption.
  inversion Hcl; subst; congruence.
Qed.

(** X17: whatever makes a seeder fail before its closes (the connection,
    the cursor, an insert, [fetchone], the commit itself), the committed
    rows are exactly those from before the run. *)
Theorem seeders_fail_clean :
  fails_clean seed_users /\ fails_clean seed_achievements /\ fails_clean seed_careers.
Proof.
  repeat apply conj; intros env w e w' H Hcur Hconn.
  - rewrite seed_users_batch in H.
    eapply BatchRun_clean; [|exact Hcur|exact Hconn].
    eapply batch_run; [| | |exact H].
    + apply users_loop_keeps_committed.
    + apply users_loop_keeps_session.
    + apply users_loop_no_commit.
  - rewrite seed_achievements_batch in H.
    eapply BatchRun_clean; [|exact Hcur|exact Hconn].
    eapply batch_run; [| | |exact H].
    + apply achievements_loop_keeps_committed.
    + apply achievements_loop_keeps_session.
    + apply achievements_loop_no_commit.
  - rewrite seed_careers_batch in H.
    eapply BatchRun_clean; [|exact Hcur|exact Hconn].
    eapply batch_run; [| | |exact H].
    + apply careers_loop_keeps_committed.
    + apply careers_loop_keeps_session.
    + apply careers_loop_no_commit.
Qed.

(** The commit of [seed_users] fails (ordinal 142) after 20 users and 20
    profiles were inserted: the store keeps its three users. *)
Lemma seeders_fail_clean_witness :
  fst (seed_users (failing_at 142) three_profiles) = Raise (CallFailed conn_commit) /\
  committed (snd (seed_users (failing_at 142) three_profiles)) = committed three_profiles.
Proof.
  split; [vm_compute; reflexivity|].
  refine (proj1 seeders_fail_clean (failing_at 142) three_profiles
            (CallFailed conn_commit)
            (snd (seed_users (failing_at 142) three_profiles)) _ _ _).
  - vm_compute. reflexivity.
  - discriminate.
  - discriminate.
Defined.

(** X18: the reference-data seeders keep titles unique: over a table
    whose titles are pairwise distinct, the table committed by any run
    has pairwise distinct titles again. *)
Theorem seeders_keep_titles_unique env w r w' :
  (seed_achievements env w = (r, w') ->
   NoDup (achievement_titles (committed w)) ->
   NoDup (achievement_titles (committed w'))) /\
  (seed_careers env w = (r, w') ->
   NoDup (career_titles (committed w)) ->
   NoDup (career_titles (committed w'))).
Proof.
  split; intros H Hnd.
  - apply seed_achievements_titles in H. destruct H as (j & -> & _).
    apply NoDup_add_titles, Hnd.
  - apply seed_careers_titles in H. destruct H as (j & -> & _).
    apply NoDup_add_titles, Hnd.
Qed.

(** "UX Designer" is stored already: after seeding, five distinct titles. *)
Lemma seeders_keep_titles_unique_witness :
  NoDup (career_titles (committed (snd (seed_careers calm one_career_stored)))).
Proof.
  refine (proj2 (seeders_keep_titles_unique calm one_career_stored
            (fst (seed_careers calm one_career_stored))
            (snd (seed_careers calm one_career_stored))) _ _).
  - vm_compute. reflexivity.
  - cbn. repeat constructor. intros [].
Defined.
